(** * PPO learner (src/ppo_alogrithm.py): a shallow embedding

    Python floats are idealised as exact rationals ([Q]); the IEEE special
    values that the code produces on purpose ([-np.inf], a division by
    zero inside numpy) are kept as separate constructors of [fval].
    Python integers are [Z]; [range n] runs [Z.to_nat n] times.  Objects
    that the code shares by reference (the [ActorCritic] modules) live in a
    heap, a finite map from locations to parameter sets. *)

From Stdlib Require Import QArith Qminmax Qpower ZArith List Lia Lqa.
From stdpp Require Import gmap.
Import ListNotations.

Local Open Scope Q_scope.

(** ** Numbers *)

(** [TOL = 1e-10] *)
Definition TOL : Q := 1 # 10000000000.

(** A numpy [float64]: a finite value or one of the three specials. *)
Inductive fval : Type :=
  | Fin (q : Q)
  | PosInf
  | NegInf
  | NaN.

Definition Qltb (a b : Q) : bool := negb (Qle_bool b a).

(** [a > b] on floats; every comparison with [nan] is [False]. *)
Definition fgt (a b : fval) : bool :=
  match a, b with
  | NaN, _ | _, NaN => false
  | Fin x, Fin y => Qltb y x
  | PosInf, PosInf => false
  | PosInf, _ => true
  | _, PosInf => false
  | NegInf, _ => false
  | Fin _, NegInf => true
  end.

(** The same float, finite values being compared as rationals. *)
Definition feq (a b : fval) : Prop :=
  match a, b with
  | Fin x, Fin y => x == y
  | PosInf, PosInf | NegInf, NegInf | NaN, NaN => True
  | _, _ => False
  end.

(** [a - b] *)
Definition fsub (a b : fval) : fval :=
  match a, b with
  | NaN, _ | _, NaN => NaN
  | Fin x, Fin y => Fin (x - y)
  | PosInf, PosInf => NaN
  | NegInf, NegInf => NaN
  | PosInf, _ => PosInf
  | NegInf, _ => NegInf
  | Fin _, PosInf => NegInf
  | Fin _, NegInf => PosInf
  end.

Definition fneg (a : fval) : fval :=
  match a with
  | Fin x => Fin (- x)
  | PosInf => NegInf
  | NegInf => PosInf
  | NaN => NaN
  end.

(** [a / b] as numpy computes it: no exception, a zero divisor gives an
    infinity or [nan].  The zero of [Q] stands for [+0.0]. *)
Definition fdiv (a b : fval) : fval :=
  match a, b with
  | NaN, _ | _, NaN => NaN
  | Fin x, Fin y =>
      if Qeq_bool y 0 then
        if Qeq_bool x 0 then NaN
        else if Qltb 0 x then PosInf else NegInf
      else Fin (x / y)
  | Fin _, _ => Fin 0
  | _, Fin y => if Qltb y 0 then fneg a else a
  | _, _ => NaN
  end.

(** Python's [max(a, b)]: the first argument unless the second is greater. *)
Definition py_max (a b : Q) : Q := if Qltb a b then b else a.

Fixpoint Qsum (l : list Q) : Q :=
  match l with
  | [] => 0
  | x :: l' => x + Qsum l'
  end.

(** [a + b] *)
Definition fadd (a b : fval) : fval :=
  match a, b with
  | NaN, _ | _, NaN => NaN
  | Fin x, Fin y => Fin (x + y)
  | PosInf, NegInf | NegInf, PosInf => NaN
  | PosInf, _ | _, PosInf => PosInf
  | NegInf, _ | _, NegInf => NegInf
  end.

(** [a * b] *)
Definition fmul (a b : fval) : fval :=
  match a, b with
  | NaN, _ | _, NaN => NaN
  | Fin x, Fin y => Fin (x * y)
  | Fin x, i | i, Fin x =>
      if Qeq_bool x 0 then NaN else if Qltb x 0 then fneg i else i
  | PosInf, PosInf | NegInf, NegInf => PosInf
  | PosInf, NegInf | NegInf, PosInf => NegInf
  end.

(** [np.mean] and [torch.mean]: [nan] on an empty sequence. *)
Definition np_mean (l : list Q) : fval :=
  match l with
  | [] => NaN
  | _ => Fin (Qsum l / inject_Z (Z.of_nat (length l)))
  end.

(** ** Python lists *)

(** [l[:-1]] *)
Definition drop_last {A} (l : list A) : list A := removelast l.

(** Modelled from the spec: [utils.misc.concatenate_lists], which is not
    among the sources.  Section 4.3: it concatenates the trajectories'
    sequences "into single ordered sequences, preserving trajectory order
    and within-trajectory order". *)
Definition concatenate_lists {A} (lists : list (list A)) : list A := concat lists.

(** Elementwise combination of two tensors of one shape; torch raises on a
    shape mismatch ([None]). *)
Fixpoint zip_exact {A B C} (f : A -> B -> C) (l1 : list A) (l2 : list B)
    : option (list C) :=
  match l1, l2 with
  | [], [] => Some []
  | x :: l1', y :: l2' =>
      match zip_exact f l1' l2' with
      | Some r => Some (f x y :: r)
      | None => None
      end
  | _, _ => None
  end.

(** ** Discounted returns *)

(** The loop of [calculate_discounted_rewards]: [t] counts the indices
    still to visit, so the body runs at index [t - 1], from
    [n_steps_per_trajectory - 1] down to [0].  [rewards[t]] raises
    [IndexError] past the end of the list ([None]). *)
Fixpoint discount_loop (discount : Q) (rewards : list Q) (t : nat)
    (discounted_reward : Q) (discounted_rewards : list Q) : option (list Q) :=
  match t with
  | O => Some discounted_rewards
  | S t' =>
      match nth_error rewards t' with
      | None => None
      | Some r =>
          let discounted_reward := r + discount * discounted_reward in
          discount_loop discount rewards t' discounted_reward
            (discounted_reward :: discounted_rewards)
      end
  end.

(** ** The collaborators *)

(** The environment adapter ([robot_environments.*], consumed through
    [init], [reset] and [step] only).  [step] returns the new state and the
    reward; [done] and [info] are never read by the learner. *)
Class Environment (Env State Action : Type) := {
  init : Env -> State;
  set_init : State -> Env -> Env;
  reset : Env -> Env;
  step : Action -> Env -> State * Q * Env
}.

(** [init] is a plain attribute, and [reset] does not assign it. *)
Class EnvironmentLaws (Env State Action : Type)
    {environment_ops : Environment Env State Action} : Prop := {
  init_set_init : forall s e, init (set_init s e) = s;
  init_reset : forall e, init (reset e) = init e
}.

(** A layer of an [nn.Sequential]. *)
Inductive layer : Type :=
  | Linear (in_features out_features : Z)
  | NonLinearity
  | Softmax.

(** What torch, numpy and gym provide: seeding of the random generators,
    creation of the weights of a module ([None] when a constructor
    raises), whether [torch.optim.Adam] accepts the parameters and the
    learning rate it is given, and sampling.  [Params] is everything an
    [ActorCritic] object owns. *)
Class Backend (State Action Box Params Rng : Type) := {
  manual_seed : Z -> Rng;
  nn_init : list layer -> list layer -> Rng -> option (Params * Rng);
  adam_init : Params -> Q -> bool;
  sample_action : Params -> State -> Rng -> Action * Rng;
  box_sample : Box -> Rng -> State * Rng
}.

(** [torch.log] and [torch.exp] on one element. *)
Class Elementary := {
  torch_log : Q -> Q;
  torch_exp : Q -> Q
}.

(** A reference to an [ActorCritic] object. *)
Abbreviation loc := positive.

(** [deepcopy]: a new object with the same contents.  A reference always
    points to an object; the [None] branch is for totality only. *)
Definition deepcopy {Params} (l : loc) (heap : gmap loc Params)
    : loc * gmap loc Params :=
  let l' := fresh (dom heap) in
  match heap !! l with
  | Some p => (l', <[l' := p]> heap)
  | None => (l', heap)
  end.

(** ** The actor-critic module *)

(** [for i in range(1, len(units))]: the hidden layers after the first. *)
Fixpoint hidden_layers (previous : Z) (units : list Z) : list layer :=
  match units with
  | [] => []
  | u :: units' => Linear previous u :: NonLinearity :: hidden_layers u units'
  end.

(** The layers of one sub-network up to its output layer, and the width
    of the last hidden layer.  [units[0]] raises [IndexError] on an empty
    list. *)
Definition body_layers (state_space_dimension : Z) (units : list Z)
    : option (list layer * Z) :=
  match units with
  | [] => None
  | u :: units' =>
      Some (Linear state_space_dimension u :: NonLinearity :: hidden_layers u units',
            List.last units u)
  end.

Definition actor_layers (state_space_dimension action_space_dimension : Z)
    (actor_hidden_layer_units : list Z) : option (list layer) :=
  match body_layers state_space_dimension actor_hidden_layer_units with
  | None => None
  | Some (layers, width) =>
      Some (layers ++ [Linear width action_space_dimension; Softmax])
  end.

Definition critic_layers (state_space_dimension : Z)
    (critic_hidden_layer_units : list Z) : option (list layer) :=
  match body_layers state_space_dimension critic_hidden_layer_units with
  | None => None
  | Some (layers, width) => Some (layers ++ [Linear width 1])
  end.

Section Learner.

Context {Env State Action Box Params Rng : Type}.
Context {environment_ops : Environment Env State Action}.
Context {backend : Backend State Action Box Params Rng}.
Context {params_inhabited : Inhabited Params}.
Context {elementary : Elementary}.

(** [ActorCritic.__init__]: the actor is built first, then the critic. *)
Definition ActorCritic_init (state_space_dimension action_space_dimension : Z)
    (actor_hidden_layer_units critic_hidden_layer_units : list Z) (rng : Rng)
    : option (Params * Rng) :=
  match actor_layers state_space_dimension action_space_dimension
          actor_hidden_layer_units with
  | None => None
  | Some actor =>
      match critic_layers state_space_dimension critic_hidden_layer_units with
      | None => None
      | Some critic => nn_init actor critic rng
      end
  end.

(** ** The learner *)

(** The attributes of a [PPOLearner].  [optimizer] is the object whose
    parameters were handed to Adam at construction. *)
Record PPOLearner : Type := {
  seed : Z;
  environment : Env;
  policy : loc;
  optimizer : loc;
  random_init_box : option Box;
  n_steps_per_trajectory : Z;
  n_trajectories_per_batch : Z;
  n_epochs : Z;
  n_iterations : Z;
  discount : Q;
  clipping_param : Q;
  critic_coefficient : Q;
  entropy_coefficient : Q;
  entropy_decay : Q;
  reversion_threshold : Q;
  reversion_threshold_decay : Q;
  min_reversion_threshold : Q;
  randomize_init_state : bool;
  mean_rewards : list fval;
  best_mean_reward : fval;
  best_policy : loc
}.

(** The arguments of [PPOLearner.__init__].  The action map is handed
    to the module unread and is part of what [sample_action] knows. *)
Record PPOLearnerArgs : Type := {
  arg_environment : Env;
  arg_state_space_dimension : Z;
  arg_action_space_dimension : Z;
  arg_critic_hidden_layer_units : list Z;
  arg_actor_hidden_layer_units : list Z;
  arg_random_init_box : option Box;
  arg_n_steps_per_trajectory : Z;
  arg_n_trajectories_per_batch : Z;
  arg_n_epochs : Z;
  arg_n_iterations : Z;
  arg_learning_rate : Q;
  arg_discount : Q;
  arg_clipping_param : Q;
  arg_critic_coefficient : Q;
  arg_entropy_coefficient : Q;
  arg_entropy_decay : Q;
  arg_reversion_threshold : Q;
  arg_reversion_threshold_decay : Q;
  arg_min_reversion_threshold : Q;
  arg_seed : Z
}.

(** [PPOLearner.__init__].  Nothing is compared or asserted: the only
    way out other than the finished object is an exception from the
    construction of the network or of the optimizer. *)
Definition PPOLearner_init (a : PPOLearnerArgs) (heap : gmap loc Params)
    : option (PPOLearner * gmap loc Params * Rng) :=
  let rng := manual_seed (arg_seed a) in
  match ActorCritic_init (arg_state_space_dimension a)
          (arg_action_space_dimension a) (arg_actor_hidden_layer_units a)
          (arg_critic_hidden_layer_units a) rng with
  | None => None
  | Some (params, rng) =>
      if negb (adam_init params (arg_learning_rate a)) then None else
      let policy := fresh (dom heap) in
      let heap := <[policy := params]> heap in
      let '(best_policy, heap) := deepcopy policy heap in
      Some ({| seed := arg_seed a;
               environment := arg_environment a;
               policy := policy;
               optimizer := policy;
               random_init_box := arg_random_init_box a;
               n_steps_per_trajectory := arg_n_steps_per_trajectory a;
               n_trajectories_per_batch := arg_n_trajectories_per_batch a;
               n_epochs := arg_n_epochs a;
               n_iterations := arg_n_iterations a;
               discount := arg_discount a;
               clipping_param := arg_clipping_param a;
               critic_coefficient := arg_critic_coefficient a;
               entropy_coefficient := arg_entropy_coefficient a;
               entropy_decay := arg_entropy_decay a;
               reversion_threshold := arg_reversion_threshold a;
               reversion_threshold_decay := arg_reversion_threshold_decay a;
               min_reversion_threshold := arg_min_reversion_threshold a;
               randomize_init_state :=
                 match arg_random_init_box a with None => false | Some _ => true end;
               mean_rewards := [];
               best_mean_reward := NegInf;
               best_policy := best_policy |},
            heap, rng)
  end.

(** Assignments to the attributes that change after construction. *)
Definition set_environment (v : Env) (self : PPOLearner) : PPOLearner :=
  {| seed := seed self; environment := v; policy := policy self;
     optimizer := optimizer self; random_init_box := random_init_box self;
     n_steps_per_trajectory := n_steps_per_trajectory self;
     n_trajectories_per_batch := n_trajectories_per_batch self;
     n_epochs := n_epochs self; n_iterations := n_iterations self;
     discount := discount self; clipping_param := clipping_param self;
     critic_coefficient := critic_coefficient self;
     entropy_coefficient := entropy_coefficient self;
     entropy_decay := entropy_decay self;
     reversion_threshold := reversion_threshold self;
     reversion_threshold_decay := reversion_threshold_decay self;
     min_reversion_threshold := min_reversion_threshold self;
     randomize_init_state := randomize_init_state self;
     mean_rewards := mean_rewards self;
     best_mean_reward := best_mean_reward self;
     best_policy := best_policy self |}.

Definition set_policy (v : loc) (self : PPOLearner) : PPOLearner :=
  {| seed := seed self; environment := environment self; policy := v;
     optimizer := optimizer self; random_init_box := random_init_box self;
     n_steps_per_trajectory := n_steps_per_trajectory self;
     n_trajectories_per_batch := n_trajectories_per_batch self;
     n_epochs := n_epochs self; n_iterations := n_iterations self;
     discount := discount self; clipping_param := clipping_param self;
     critic_coefficient := critic_coefficient self;
     entropy_coefficient := entropy_coefficient self;
     entropy_decay := entropy_decay self;
     reversion_threshold := reversion_threshold self;
     reversion_threshold_decay := reversion_threshold_decay self;
     min_reversion_threshold := min_reversion_threshold self;
     randomize_init_state := randomize_init_state self;
     mean_rewards := mean_rewards self;
     best_mean_reward := best_mean_reward self;
     best_policy := best_policy self |}.

Definition set_entropy_coefficient (v : Q) (self : PPOLearner) : PPOLearner :=
  {| seed := seed self; environment := environment self;
     policy := policy self; optimizer := optimizer self;
     random_init_box := random_init_box self;
     n_steps_per_trajectory := n_steps_per_trajectory self;
     n_trajectories_per_batch := n_trajectories_per_batch self;
     n_epochs := n_epochs self; n_iterations := n_iterations self;
     discount := discount self; clipping_param := clipping_param self;
     critic_coefficient := critic_coefficient self;
     entropy_coefficient := v; entropy_decay := entropy_decay self;
     reversion_threshold := reversion_threshold self;
     reversion_threshold_decay := reversion_threshold_decay self;
     min_reversion_threshold := min_reversion_threshold self;
     randomize_init_state := randomize_init_state self;
     mean_rewards := mean_rewards self;
     best_mean_reward := best_mean_reward self;
     best_policy := best_policy self |}.

Definition set_reversion_threshold (v : Q) (self : PPOLearner) : PPOLearner :=
  {| seed := seed self; environment := environment self;
     policy := policy self; optimizer := optimizer self;
     random_init_box := random_init_box self;
     n_steps_per_trajectory := n_steps_per_trajectory self;
     n_trajectories_per_batch := n_trajectories_per_batch self;
     n_epochs := n_epochs self; n_iterations := n_iterations self;
     discount := discount self; clipping_param := clipping_param self;
     critic_coefficient := critic_coefficient self;
     entropy_coefficient := entropy_coefficient self;
     entropy_decay := entropy_decay self; reversion_threshold := v;
     reversion_threshold_decay := reversion_threshold_decay self;
     min_reversion_threshold := min_reversion_threshold self;
     randomize_init_state := randomize_init_state self;
     mean_rewards := mean_rewards self;
     best_mean_reward := best_mean_reward self;
     best_policy := best_policy self |}.

Definition set_mean_rewards (v : list fval) (self : PPOLearner) : PPOLearner :=
  {| seed := seed self; environment := environment self;
     policy := policy self; optimizer := optimizer self;
     random_init_box := random_init_box self;
     n_steps_per_trajectory := n_steps_per_trajectory self;
     n_trajectories_per_batch := n_trajectories_per_batch self;
     n_epochs := n_epochs self; n_iterations := n_iterations self;
     discount := discount self; clipping_param := clipping_param self;
     critic_coefficient := critic_coefficient self;
     entropy_coefficient := entropy_coefficient self;
     entropy_decay := entropy_decay self;
     reversion_threshold := reversion_threshold self;
     reversion_threshold_decay := reversion_threshold_decay self;
     min_reversion_threshold := min_reversion_threshold self;
     randomize_init_state := randomize_init_state self; mean_rewards := v;
     best_mean_reward := best_mean_reward self;
     best_policy := best_policy self |}.

Definition set_best_mean_reward (v : fval) (self : PPOLearner) : PPOLearner :=
  {| seed := seed self; environment := environment self;
     policy := policy self; optimizer := optimizer self;
     random_init_box := random_init_box self;
     n_steps_per_trajectory := n_steps_per_trajectory self;
     n_trajectories_per_batch := n_trajectories_per_batch self;
     n_epochs := n_epochs self; n_iterations := n_iterations self;
     discount := discount self; clipping_param := clipping_param self;
     critic_coefficient := critic_coefficient self;
     entropy_coefficient := entropy_coefficient self;
     entropy_decay := entropy_decay self;
     reversion_threshold := reversion_threshold self;
     reversion_threshold_decay := reversion_threshold_decay self;
     min_reversion_threshold := min_reversion_threshold self;
     randomize_init_state := randomize_init_state self;
     mean_rewards := mean_rewards self; best_mean_reward := v;
     best_policy := best_policy self |}.

Definition set_best_policy (v : loc) (self : PPOLearner) : PPOLearner :=
  {| seed := seed self; environment := environment self;
     policy := policy self; optimizer := optimizer self;
     random_init_box := random_init_box self;
     n_steps_per_trajectory := n_steps_per_trajectory self;
     n_trajectories_per_batch := n_trajectories_per_batch self;
     n_epochs := n_epochs self; n_iterations := n_iterations self;
     discount := discount self; clipping_param := clipping_param self;
     critic_coefficient := critic_coefficient self;
     entropy_coefficient := entropy_coefficient self;
     entropy_decay := entropy_decay self;
     reversion_threshold := reversion_threshold self;
     reversion_threshold_decay := reversion_threshold_decay self;
     min_reversion_threshold := min_reversion_threshold self;
     randomize_init_state := randomize_init_state self;
     mean_rewards := mean_rewards self;
     best_mean_reward := best_mean_reward self; best_policy := v |}.

(** ** Trajectories *)

Definition calculate_discounted_rewards (self : PPOLearner) (rewards : list Q)
    : option (list Q) :=
  discount_loop (discount self) rewards
    (Z.to_nat (n_steps_per_trajectory self)) 0 [].

(** The sampling loop of [generate_trajectory], [n] steps to go. *)
Fixpoint rollout (theta : Params) (n : nat) (state : State) (env : Env)
    (rng : Rng) (states : list State) (rewards : list Q)
    : Env * Rng * list State * list Q :=
  match n with
  | O => (env, rng, states, rewards)
  | S n' =>
      let '(action, rng) := sample_action theta state rng in
      let '(new_state, reward, env) := step action env in
      rollout theta n' new_state env rng (states ++ [state]) (rewards ++ [reward])
  end.

(** [generate_trajectory].  The policy is read from the heap; the
    environment is the only attribute written.  [None.sample()] raises when
    [randomize_init_state] is set without a box. *)
Definition generate_trajectory (self : PPOLearner) (heap : gmap loc Params)
    (rng : Rng) : option (PPOLearner * Rng * (list State * list Q * list Q)) :=
  let env := environment self in
  let init_state := init env in
  let start :=
    if randomize_init_state self then
      match random_init_box self with
      | None => None
      | Some box =>
          let '(state, rng) := box_sample box rng in
          Some (state, reset (set_init state env), rng)
      end
    else Some (init_state, env, rng) in
  match start with
  | None => None
  | Some (state, env, rng) =>
      let '(env, rng, states, rewards) :=
        rollout (heap !!! policy self)
          (Z.to_nat (n_steps_per_trajectory self + 1)) state env rng [] [] in
      let env := reset (set_init init_state env) in
      let self := set_environment env self in
      match calculate_discounted_rewards self rewards with
      | None => None
      | Some discounted_rewards =>
          Some (self, rng, (drop_last states, rewards, discounted_rewards))
      end
  end.

(** [[self.generate_trajectory() for _ in range(n)]] *)
Fixpoint generate_trajectories (n : nat) (self : PPOLearner)
    (heap : gmap loc Params) (rng : Rng)
    : option (PPOLearner * Rng * list (list State * list Q * list Q)) :=
  match n with
  | O => Some (self, rng, [])
  | S n' =>
      match generate_trajectory self heap rng with
      | None => None
      | Some (self, rng, trajectory) =>
          match generate_trajectories n' self heap rng with
          | None => None
          | Some (self, rng, trajectories) =>
              Some (self, rng, trajectory :: trajectories)
          end
      end
  end.

(** [generate_batch].  Unzipping an empty list of trajectories gives no
    components, and the unpacking into three names raises.  The [timer]
    decorator is taken to return what the method returns. *)
Definition generate_batch (self : PPOLearner) (heap : gmap loc Params)
    (rng : Rng) : option (PPOLearner * Rng * (list State * list Q * list Q)) :=
  match generate_trajectories (Z.to_nat (n_trajectories_per_batch self))
          self heap rng with
  | None => None
  | Some (_, _, []) => None
  | Some (self, rng, trajectories) =>
      Some (self, rng,
            (concatenate_lists (map (fun tr => fst (fst tr)) trajectories),
             concatenate_lists (map (fun tr => snd (fst tr)) trajectories),
             concatenate_lists (map (fun tr => snd tr) trajectories)))
  end.

(** ** Performance tracking *)

(** The branch of [_track_performance] that a mean reward selects. *)
Inductive tracked : Type :=
  | NewBest
  | Reverted
  | Kept.

Definition track_branch (self : PPOLearner) (mean_reward : fval) : tracked :=
  if fgt mean_reward (best_mean_reward self) then NewBest
  else if fgt (fdiv (fsub (best_mean_reward self) mean_reward)
                    (best_mean_reward self))
              (Fin (reversion_threshold self))
       then Reverted
       else Kept.

Definition _track_performance (self : PPOLearner) (heap : gmap loc Params)
    (rewards : list Q) : PPOLearner * gmap loc Params :=
  let mean_reward := np_mean rewards in
  let self := set_mean_rewards (mean_rewards self ++ [mean_reward]) self in
  match track_branch self mean_reward with
  | NewBest =>
      let self := set_best_mean_reward mean_reward self in
      let '(copy, heap) := deepcopy (policy self) heap in
      (set_best_policy copy self, heap)
  | Reverted => (set_policy (best_policy self) self, heap)
  | Kept => (self, heap)
  end.

(** ** Optimisation *)

(** [optimizer.step()]: Adam rewrites in place the tensors it was given
    at construction; [update] is what this step does to them. *)
Definition optimizer_step (update : Params -> Params) (self : PPOLearner)
    (heap : gmap loc Params) : gmap loc Params :=
  alter update (optimizer self) heap.

(** An in-place write to the parameters of the live policy. *)
Definition mutate_policy (update : Params -> Params) (self : PPOLearner)
    (heap : gmap loc Params) : gmap loc Params :=
  alter update (policy self) heap.

(** An in-place write to the parameters of the best-policy snapshot. *)
Definition mutate_best_policy (update : Params -> Params) (self : PPOLearner)
    (heap : gmap loc Params) : gmap loc Params :=
  alter update (best_policy self) heap.

(** [torch.clamp(x, lo, hi)] *)
Definition clamp (x lo hi : Q) : Q := Qmin (Qmax x lo) hi.

(** Elementwise combination of two [N x A] tensors. *)
Definition zip_exact2 (f : Q -> Q -> Q) (t1 t2 : list (list Q))
    : option (list (list Q)) :=
  rows ← zip_exact (zip_exact f) t1 t2; mapM id rows.

(** An [N x A] tensor combined with an [N x 1] tensor, which is broadcast
    along the rows. *)
Definition zip_column (f : Q -> Q -> Q) (t : list (list Q)) (column : list Q)
    : option (list (list Q)) :=
  zip_exact (fun row a => map (fun x => f x a) row) t column.

Definition actor_loss (self : PPOLearner)
    (policy_probabilities old_policy_probabilities : list (list Q))
    (advantage_estimates : list Q) : option fval :=
  ratio ← zip_exact2
             (fun p p_old => torch_exp (torch_log (p + TOL) - torch_log (p_old + TOL)))
             policy_probabilities old_policy_probabilities;
  clipped ← zip_column
               (fun r a => clamp r (1 - clipping_param self) (1 + clipping_param self) * a)
               ratio advantage_estimates;
  unclipped ← zip_column (fun r a => r * a) ratio advantage_estimates;
  least ← zip_exact2 Qmin clipped unclipped;
  Some (fneg (np_mean (concat least))).

Definition critic_loss (values discounted_rewards : list Q) : option fval :=
  squares ← zip_exact (fun g v => (g - v) ^ 2) discounted_rewards values;
  Some (np_mean squares).

Definition entropy_loss (policy_probabilities : list (list Q)) : fval :=
  np_mean (concat (map (map (fun p => p * torch_log (p + TOL))) policy_probabilities)).

(** [ppo_loss]; [values], [discounted_rewards] and [advantage_estimates]
    have shape [N x 1], the probabilities [N x A]. *)
Definition ppo_loss (self : PPOLearner) (values discounted_rewards : list Q)
    (policy_probabilities old_policy_probabilities : list (list Q))
    (advantage_estimates : list Q) : option fval :=
  actor ← actor_loss self policy_probabilities old_policy_probabilities
             advantage_estimates;
  critic ← critic_loss values discounted_rewards;
  Some (fadd (fadd actor (fmul (Fin (critic_coefficient self)) critic))
             (fmul (Fin (entropy_coefficient self))
                   (entropy_loss policy_probabilities))).

(** ** Hyperparameter schedule *)

Definition update_hyperparameters (self : PPOLearner) : PPOLearner :=
  let self :=
    set_entropy_coefficient (entropy_decay self * entropy_coefficient self) self in
  set_reversion_threshold
    (py_max (reversion_threshold_decay self * reversion_threshold_decay self)
            (min_reversion_threshold self))
    self.

End Learner.

(** ** A small world to run the learner in *)

(** A one-dimensional environment: the state is an integer, an action is
    added to it, and the reward of a step is the state it reaches.  The
    policy has one integer weight and the random generator is a counter. *)
Module Toy.

Record env : Type := { toy_init : Z; toy_state : Z }.

#[global] Instance toy_environment : Environment env Z Z := {
  init e := toy_init e;
  set_init s e := {| toy_init := s; toy_state := toy_state e |};
  reset e := {| toy_init := toy_init e; toy_state := toy_init e |};
  step a e :=
    let s := (toy_state e + a)%Z in
    (s, inject_Z s, {| toy_init := toy_init e; toy_state := s |})
}.

#[global] Instance toy_backend : Backend Z Z (Z * Z) Z Z := {
  manual_seed s := s;
  nn_init actor critic rng := Some (Z.of_nat (length actor + length critic), (rng + 1)%Z);
  adam_init params learning_rate := Qle_bool 0 learning_rate;
  sample_action theta state rng := ((theta + rng) mod 3, (rng + 1)%Z)%Z;
  box_sample box rng := ((fst box + rng mod (snd box - fst box + 1))%Z, (rng + 1)%Z)
}.

Definition args (box : option (Z * Z)) (n_steps n_trajectories : Z)
    : PPOLearnerArgs :=
  {| arg_environment := {| toy_init := 0; toy_state := 0 |};
     arg_state_space_dimension := 1;
     arg_action_space_dimension := 3;
     arg_critic_hidden_layer_units := [4%Z];
     arg_actor_hidden_layer_units := [4%Z; 4%Z];
     arg_random_init_box := box;
     arg_n_steps_per_trajectory := n_steps;
     arg_n_trajectories_per_batch := n_trajectories;
     arg_n_epochs := 5;
     arg_n_iterations := 50;
     arg_learning_rate := 25 # 100000;
     arg_discount := 99 # 100;
     arg_clipping_param := 1 # 10;
     arg_critic_coefficient := 1;
     arg_entropy_coefficient := 1 # 10;
     arg_entropy_decay := 999 # 1000;
     arg_reversion_threshold := 2 # 10;
     arg_reversion_threshold_decay := 99 # 100;
     arg_min_reversion_threshold := 1 # 10;
     arg_seed := 0 |}.

(** A learner as [__init__] leaves it, on an empty heap. *)
Definition fresh_learner (box : option (Z * Z)) (n_steps n_trajectories : Z)
    : option (PPOLearner * gmap loc Z * Z) :=
  PPOLearner_init (args box n_steps n_trajectories) ∅.

(** The same learner, written out: the network is object [1], the
    best-policy copy object [2]. *)
Definition learner (box : option (Z * Z)) (n_steps n_trajectories : Z)
    : PPOLearner :=
  {| seed := 0;
     environment := {| toy_init := 0; toy_state := 0 |};
     policy := 1%positive;
     optimizer := 1%positive;
     random_init_box := box;
     n_steps_per_trajectory := n_steps;
     n_trajectories_per_batch := n_trajectories;
     n_epochs := 5;
     n_iterations := 50;
     discount := 99 # 100;
     clipping_param := 1 # 10;
     critic_coefficient := 1;
     entropy_coefficient := 1 # 10;
     entropy_decay := 999 # 1000;
     reversion_threshold := 2 # 10;
     reversion_threshold_decay := 99 # 100;
     min_reversion_threshold := 1 # 10;
     randomize_init_state := match box with None => false | Some _ => true end;
     mean_rewards := [];
     best_mean_reward := NegInf;
     best_policy := 2%positive |}.

Definition heap : gmap loc Z := <[2%positive := 9%Z]> (<[1%positive := 9%Z]> ∅).

(** Rational stand-ins for the logarithm and the exponential (their
    first-order expansions), to run [ppo_loss] on numbers. *)
Definition elementary : Elementary :=
  {| torch_log q := q - 1; torch_exp q := 1 + q |}.

(** Arguments with a horizon of [0], a batch size of [-1] and negative
    coefficients. *)
Definition invalid_args : @PPOLearnerArgs env (Z * Z) :=
  {| arg_environment := {| toy_init := 0; toy_state := 0 |};
     arg_state_space_dimension := 1;
     arg_action_space_dimension := 3;
     arg_critic_hidden_layer_units := [4%Z];
     arg_actor_hidden_layer_units := [4%Z; 4%Z];
     arg_random_init_box := None;
     arg_n_steps_per_trajectory := 0;
     arg_n_trajectories_per_batch := (-1);
     arg_n_epochs := 5;
     arg_n_iterations := 50;
     arg_learning_rate := 25 # 100000;
     arg_discount := 99 # 100;
     arg_clipping_param := 1 # 10;
     arg_critic_coefficient := - (1);
     arg_entropy_coefficient := - (1 # 10);
     arg_entropy_decay := 999 # 1000;
     arg_reversion_threshold := 2 # 10;
     arg_reversion_threshold_decay := 99 # 100;
     arg_min_reversion_threshold := 1 # 10;
     arg_seed := 0 |}.

End Toy.

(** ** Notions used in the statements *)

(** The returns of the rewards [rs] when the return after the last of them
    is [g]. *)
Fixpoint returns_from (discount : Q) (rs : list Q) (g : Q) : list Q :=
  match rs with
  | [] => []
  | r :: rs' =>
      let rest := returns_from discount rs' g in
      (r + discount * hd g rest) :: rest
  end.

(** A learner that samples its initial state has a box to sample from
    (true of every learner that [__init__] returns). *)
Definition has_box {Env Box : Type} (self : @PPOLearner Env Box) : Prop :=
  randomize_init_state self = true -> is_Some (random_init_box self).

(** The shape of a trajectory of the learner [self]. *)
Definition shaped {Env Box State : Type} (self : @PPOLearner Env Box)
    (tr : list State * list Q * list Q) : Prop :=
  length (fst (fst tr)) = pred (Z.to_nat (n_steps_per_trajectory self + 1))
  /\ length (snd (fst tr)) = Z.to_nat (n_steps_per_trajectory self + 1)
  /\ length (snd tr) = Z.to_nat (n_steps_per_trajectory self).

(** The branches taken over a sequence of batches, and the learner and
    heap after the last of them. *)
Fixpoint track_run {Env Box Params : Type} (self : @PPOLearner Env Box)
    (heap : gmap loc Params) (batches : list (list Q))
    : list tracked * @PPOLearner Env Box * gmap loc Params :=
  match batches with
  | [] => ([], self, heap)
  | rewards :: batches' =>
      let '(self', heap') := _track_performance self heap rewards in
      let '(branches, self'', heap'') := track_run self' heap' batches' in
      (track_branch self (np_mean rewards) :: branches, self'', heap'')
  end.

(** ** Further notions used in the statements *)

(** The discounted sum [r_0 + discount * (r_1 + discount * (r_2 + ...))]. *)
Fixpoint discounted_sum (discount : Q) (rs : list Q) : Q :=
  match rs with
  | [] => 0
  | r :: rs' => r + discount * discounted_sum discount rs'
  end.

(** The width that leaves a stack of layers fed with [width] features:
    a [Linear] wants its own input width, the other layers keep the width. *)
Fixpoint output_width (width : Z) (layers : list layer) : option Z :=
  match layers with
  | [] => Some width
  | Linear i o :: layers' =>
      if (i =? width)%Z then output_width o layers' else None
  | _ :: layers' => output_width width layers'
  end.

(** The toy arguments with no hidden layer for the actor. *)
Definition toy_args_without_actor_layers : @PPOLearnerArgs Toy.env (Z * Z) :=
  {| arg_environment := {| Toy.toy_init := 0; Toy.toy_state := 0 |};
     arg_state_space_dimension := 1;
     arg_action_space_dimension := 3;
     arg_critic_hidden_layer_units := [4%Z];
     arg_actor_hidden_layer_units := [];
     arg_random_init_box := None;
     arg_n_steps_per_trajectory := 128;
     arg_n_trajectories_per_batch := 8;
     arg_n_epochs := 5;
     arg_n_iterations := 50;
     arg_learning_rate := 25 # 100000;
     arg_discount := 99 # 100;
     arg_clipping_param := 1 # 10;
     arg_critic_coefficient := 1;
     arg_entropy_coefficient := 1 # 10;
     arg_entropy_decay := 999 # 1000;
     arg_reversion_threshold := 2 # 10;
     arg_reversion_threshold_decay := 99 # 100;
     arg_min_reversion_threshold := 1 # 10;
     arg_seed := 0 |}.

(** The objects that the learner names exist, and the best-policy
    snapshot is not the object that the optimizer writes. *)
Definition snapshot_apart {Env Box Params : Type} (self : @PPOLearner Env Box)
    (heap : gmap loc Params) : Prop :=
  policy self ∈ dom heap
  /\ best_policy self ∈ dom heap
  /\ optimizer self ∈ dom heap
  /\ best_policy self <> optimizer self.

(** The unclipped surrogate: the actor loss without the [clamp] and the
    [min], minus the mean of [ratio * advantage]. *)
Definition unclipped_loss {elementary : Elementary}
    (policy_probabilities old_policy_probabilities : list (list Q))
    (advantage_estimates : list Q) : option fval :=
  ratio ← zip_exact2
             (fun p p_old => torch_exp (torch_log (p + TOL) - torch_log (p_old + TOL)))
             policy_probabilities old_policy_probabilities;
  unclipped ← zip_column (fun r a => r * a) ratio advantage_estimates;
  Some (fneg (np_mean (concat unclipped))).

(** The attributes that are set at construction and that no method
    assigns afterwards. *)
Definition same_configuration {Env Box : Type} (self self' : @PPOLearner Env Box)
    : Prop :=
  seed self' = seed self
  /\ optimizer self' = optimizer self
  /\ random_init_box self' = random_init_box self
  /\ randomize_init_state self' = randomize_init_state self
  /\ n_steps_per_trajectory self' = n_steps_per_trajectory self
  /\ n_trajectories_per_batch self' = n_trajectories_per_batch self
  /\ n_epochs self' = n_epochs self
  /\ n_iterations self' = n_iterations self
  /\ discount self' = discount self
  /\ clipping_param self' = clipping_param self
  /\ critic_coefficient self' = critic_coefficient self
  /\ entropy_decay self' = entropy_decay self
  /\ reversion_threshold_decay self' = reversion_threshold_decay self
  /\ min_reversion_threshold self' = min_reversion_threshold self.

(** ** The training loop *)

(** The two sub-networks applied to a batch of states,
    [self.actor(states)] of shape [N x A] and [self.critic(states)] of shape
    [N x 1]; [None] when torch raises. *)
Class Network (State Params : Type) := {
  actor_forward : Params -> list State -> option (list (list Q));
  critic_forward : Params -> list State -> option (list Q)
}.

(** [torch.sqrt] on one element, for [torch.std]. *)
Class SquareRoot := {
  torch_sqrt : Q -> Q
}.

(** Autograd and Adam.  [zero_grad] and [adam_step] act on the parameters
    registered with the optimizer, [backward] on the parameters the loss was
    computed from; the loss is handed to [backward] as a function of those
    parameters.  [OptState] is what Adam keeps between steps. *)
Class Optimizer (Params OptState : Type) := {
  zero_grad : Params -> Params;
  backward : (Params -> option fval) -> Params -> Params;
  adam_step : OptState -> Params -> Params * OptState
}.

(** How a call ends: it returns, it raises, or a tensor holds [nan] or
    an infinity.  In the last case Python goes on computing with the value;
    the tensors of this model are rational and do not follow it. *)
Inductive outcome (A : Type) : Type :=
  | Returns (a : A)
  | Raises
  | NonFinite.

Arguments Returns {A} a.
Arguments Raises {A}.
Arguments NonFinite {A}.

(** The finite values of a tensor, when all are finite. *)
Fixpoint all_finite (l : list fval) : option (list Q) :=
  match l with
  | [] => Some []
  | Fin q :: l' =>
      match all_finite l' with
      | Some r => Some (q :: r)
      | None => None
      end
  | _ :: _ => None
  end.

(** [torch.std]: the square root of the variance with Bessel's
    correction; [nan] below two elements. *)
Definition torch_std {square_root : SquareRoot} (l : list Q) : fval :=
  match l with
  | [] | [_] => NaN
  | _ =>
      let n := inject_Z (Z.of_nat (length l)) in
      let mean := Qsum l / n in
      Fin (torch_sqrt (Qsum (map (fun x => (x - mean) ^ 2) l) / (n - 1)))
  end.

Section Training.

Context {Env State Action Box Params Rng OptState : Type}.
Context {environment_ops : Environment Env State Action}.
Context {backend : Backend State Action Box Params Rng}.
Context {params_inhabited : Inhabited Params}.
Context {elementary : Elementary}.
Context {square_root : SquareRoot}.
Context {network : Network State Params}.
Context {optimizer_ops : Optimizer Params OptState}.

(** [ActorCritic.forward] *)
Definition forward (theta : Params) (states : list State)
    : option (list (list Q) * list Q) :=
  policy_probabilities ← actor_forward theta states;
  values ← critic_forward theta states;
  Some (policy_probabilities, values).

(** [_get_tensors]: the old probabilities come from the live policy, and
    the discounted rewards are normalised with their mean and standard
    deviation. *)
Definition _get_tensors (self : @PPOLearner Env Box) (heap : gmap loc Params)
    (states : list State) (discounted_rewards : list Q)
    : option (list State * list fval * list (list Q)) :=
  old_policy_probabilities ← actor_forward (heap !!! policy self) states;
  let mean := np_mean discounted_rewards in
  let std := torch_std discounted_rewards in
  Some (states,
        map (fun g => fdiv (fsub (Fin g) mean) (fadd std (Fin TOL)))
            discounted_rewards,
        old_policy_probabilities).

(** The loss of one epoch as a function of the parameters it is computed
    from; the advantage estimates are detached. *)
Definition loss_of (self : @PPOLearner Env Box) (states : list State)
    (discounted_rewards : list Q) (old_policy_probabilities : list (list Q))
    (advantage_estimates : list Q) (theta : Params) : option fval :=
  match forward theta states with
  | None => None
  | Some (policy_probabilities, values) =>
      ppo_loss self values discounted_rewards policy_probabilities
        old_policy_probabilities advantage_estimates
  end.

(** One pass of the loop of [update_policy_network]. *)
Definition epoch (self : @PPOLearner Env Box) (states : list State)
    (discounted_rewards : list Q) (old_policy_probabilities : list (list Q))
    (heap : gmap loc Params) (opt : OptState)
    : option (gmap loc Params * OptState) :=
  match forward (heap !!! policy self) states with
  | None => None
  | Some (policy_probabilities, values) =>
      match zip_exact Qminus discounted_rewards values with
      | None => None
      | Some advantage_estimates =>
          match ppo_loss self values discounted_rewards policy_probabilities
                  old_policy_probabilities advantage_estimates with
          | None => None
          | Some _ =>
              let heap := alter zero_grad (optimizer self) heap in
              let heap :=
                alter (backward (loss_of self states discounted_rewards
                                   old_policy_probabilities advantage_estimates))
                      (policy self) heap in
              match heap !! optimizer self with
              | Some p =>
                  let '(p', opt') := adam_step opt p in
                  Some (<[optimizer self := p']> heap, opt')
              | None => Some (heap, opt)
              end
          end
      end
  end.

(** [update_policy_network]: [n] epochs to go. *)
Fixpoint epochs (n : nat) (self : @PPOLearner Env Box) (states : list State)
    (discounted_rewards : list Q) (old_policy_probabilities : list (list Q))
    (heap : gmap loc Params) (opt : OptState)
    : option (gmap loc Params * OptState) :=
  match n with
  | O => Some (heap, opt)
  | S n' =>
      match epoch self states discounted_rewards old_policy_probabilities
              heap opt with
      | None => None
      | Some (heap, opt) =>
          epochs n' self states discounted_rewards old_policy_probabilities
            heap opt
      end
  end.

Definition update_policy_network (self : @PPOLearner Env Box)
    (states : list State) (discounted_rewards : list Q)
    (old_policy_probabilities : list (list Q))
    (heap : gmap loc Params) (opt : OptState)
    : option (gmap loc Params * OptState) :=
  epochs (Z.to_nat (n_epochs self)) self states discounted_rewards
    old_policy_probabilities heap opt.

(** The body of the loop of [train]. *)
Definition train_iteration (self : @PPOLearner Env Box)
    (heap : gmap loc Params) (rng : Rng) (opt : OptState)
    : outcome (@PPOLearner Env Box * gmap loc Params * Rng * OptState) :=
  match generate_batch self heap rng with
  | None => Raises
  | Some (self, rng, (states, rewards, discounted_rewards)) =>
      let '(self, heap) := _track_performance self heap rewards in
      match _get_tensors self heap states discounted_rewards with
      | None => Raises
      | Some (states, discounted_rewards, old_policy_probabilities) =>
          match all_finite discounted_rewards with
          | None => NonFinite
          | Some discounted_rewards =>
              match update_policy_network self states discounted_rewards
                      old_policy_probabilities heap opt with
              | None => Raises
              | Some (heap, opt) =>
                  Returns (update_hyperparameters self, heap, rng, opt)
              end
          end
      end
  end.

(** [train]: [n] iterations to go. *)
Fixpoint iterations (n : nat) (self : @PPOLearner Env Box)
    (heap : gmap loc Params) (rng : Rng) (opt : OptState)
    : outcome (@PPOLearner Env Box * gmap loc Params * Rng * OptState) :=
  match n with
  | O => Returns (self, heap, rng, opt)
  | S n' =>
      match train_iteration self heap rng opt with
      | Returns (self, heap, rng, opt) => iterations n' self heap rng opt
      | Raises => Raises
      | NonFinite => NonFinite
      end
  end.

Definition train (self : @PPOLearner Env Box) (heap : gmap loc Params)
    (rng : Rng) (opt : OptState)
    : outcome (@PPOLearner Env Box * gmap loc Params * Rng * OptState) :=
  iterations (Z.to_nat (n_iterations self)) self heap rng opt.

End Training.

(** The toy world, continued: a network whose outputs depend on the
    parity of its weight, an optimizer that counts its steps and adds one
    to the weight, and a rational stand-in for the square root (one Newton
    step from [1]). *)
#[global] Instance toy_network : Network Z Z := {
  actor_forward theta states :=
    Some (map (fun _ => if Z.even theta then [1 # 2; 1 # 4; 1 # 4]
                        else [1 # 4; 1 # 2; 1 # 4]) states);
  critic_forward theta states := Some (map (fun s => inject_Z (theta + s)) states)
}.

#[global] Instance toy_optimizer : Optimizer Z Z := {
  zero_grad p := p;
  backward loss p := p;
  adam_step opt p := ((p + 1)%Z, (opt + 1)%Z)
}.

Definition toy_square_root : SquareRoot := {| torch_sqrt q := (1 + q) / 2 |}.

(** A toy learner with two iterations of one epoch. *)
Definition toy_trainee : @PPOLearner Toy.env (Z * Z) :=
  {| seed := 0;
     environment := {| Toy.toy_init := 0; Toy.toy_state := 0 |};
     policy := 1%positive;
     optimizer := 1%positive;
     random_init_box := Some (3, 5)%Z;
     n_steps_per_trajectory := 2;
     n_trajectories_per_batch := 2;
     n_epochs := 1;
     n_iterations := 2;
     discount := 99 # 100;
     clipping_param := 1 # 10;
     critic_coefficient := 1;
     entropy_coefficient := 1 # 10;
     entropy_decay := 999 # 1000;
     reversion_threshold := 2 # 10;
     reversion_threshold_decay := 99 # 100;
     min_reversion_threshold := 1 # 10;
     randomize_init_state := true;
     mean_rewards := [];
     best_mean_reward := NegInf;
     best_policy := 2%positive |}.

(** The toy learner and the heap after its two iterations. *)
Definition toy_trained : @PPOLearner Toy.env (Z * Z) :=
  Nat.iter 2 update_hyperparameters
    (set_best_policy 3%positive
       (set_best_mean_reward (Fin (38 # 6))
          (set_mean_rewards [Fin (38 # 6); Fin (32 # 6)] toy_trainee))).

Definition toy_trained_heap : gmap loc Z :=
  <[3%positive := 9%Z]> (<[1%positive := 11%Z]> Toy.heap).

(** The network answers every non-empty batch of states with one row of
    [A] probabilities and one value estimate per state. *)
Definition network_shapes {State Params : Type} {network : Network State Params}
    (A : nat) : Prop :=
  forall (theta : Params) (states : list State),
    states <> [] ->
    exists probabilities values,
      actor_forward theta states = Some probabilities
      /\ critic_forward theta states = Some values
      /\ length probabilities = length states
      /\ Forall (fun row => length row = A) probabilities
      /\ length values = length states.

(** The square root of a non-negative number is not [-TOL] (it is not
    negative). *)
Definition sqrt_safe {square_root : SquareRoot} : Prop :=
  forall q, 0 <= q -> ~ torch_sqrt q + TOL == 0.

(** ** The base environment (src/environment_models/base.py) *)

(** A state is a vector; [len] of it is the default for both dimensions.
    Python's [x if x else y] takes [y] for [None] and for [0].  The
    callables are functions: a transition returns the next state and does
    not write into the state it is given. *)
Module BaseEnv.

Section Env.

Context {X Action : Type}.

Record t : Type := {
  initial_state : list X;
  state : list X;
  transition_function : list X -> Action -> list X;
  reward_function : list X -> Action -> Q;
  is_done : list X -> bool;
  state_space_dimension : Z;
  action_space_dimension : Z
}.

(** [dimension if dimension else len(self.state)] *)
Definition dimension_or_len (dimension : option Z) (s : list X) : Z :=
  match dimension with
  | Some d => if (d =? 0)%Z then Z.of_nat (length s) else d
  | None => Z.of_nat (length s)
  end.

(** [BaseEnv.__init__] *)
Definition new (initial : list X)
    (transition : list X -> Action -> list X)
    (reward : list X -> Action -> Q)
    (done : option (list X -> bool))
    (state_dimension action_dimension : option Z) : t :=
  {| initial_state := initial;
     state := initial;
     transition_function := transition;
     reward_function := reward;
     is_done := match done with Some f => f | None => fun _ => false end;
     state_space_dimension := dimension_or_len state_dimension initial;
     action_space_dimension := dimension_or_len action_dimension initial |}.

Definition with_state (s : list X) (self : t) : t :=
  {| initial_state := initial_state self;
     state := s;
     transition_function := transition_function self;
     reward_function := reward_function self;
     is_done := is_done self;
     state_space_dimension := state_space_dimension self;
     action_space_dimension := action_space_dimension self |}.

(** [update]: the transition first, then [done] and the reward on the
    new state. *)
Definition update (action : Action) (self : t) : t * (Q * bool) :=
  let self := with_state (transition_function self (state self) action) self in
  let done := is_done self (state self) in
  let reward := reward_function self (state self) action in
  (self, (reward, done)).

Definition set_state (s : list X) (self : t) : t := with_state s self.

Definition reset (self : t) : t := with_state (initial_state self) self.

(** A call of one of the three methods. *)
Inductive call : Type :=
  | Update (action : Action)
  | SetState (s : list X)
  | Reset.

Definition perform (c : call) (self : t) : t :=
  match c with
  | Update action => fst (update action self)
  | SetState s => set_state s self
  | Reset => reset self
  end.

(** The calls of a list, first to last. *)
Definition run (calls : list call) (self : t) : t :=
  fold_left (fun self c => perform c self) calls self.

(** [update] called with each action in turn, with what it returned. *)
Fixpoint updates (actions : list Action) (self : t) : t * list (Q * bool) :=
  match actions with
  | [] => (self, [])
  | action :: actions =>
      let '(self, returned) := update action self in
      let '(self, rest) := updates actions self in
      (self, returned :: rest)
  end.

End Env.

Arguments t : clear implicits.

End BaseEnv.

(** A one-dimensional environment: an action is added to the state, the
    reward is the state reached. *)
Definition toy_base_env : BaseEnv.t Q Q :=
  BaseEnv.new [0] (fun s a => map (Qplus a) s) (fun s _ => Qsum s)
    None None None.

(** * Properties *)

(** ** Discounted returns *)

Lemma returns_from_length discount rs g :
  length (returns_from discount rs g) = length rs.
Proof. induction rs as [|r rs IH]; simpl; [reflexivity | now rewrite IH]. Qed.

Lemma returns_from_snoc discount rs r g :
  returns_from discount (rs ++ [r]) g =
  returns_from discount rs (r + discount * g) ++ [r + discount * g].
Proof.
  induction rs as [|r' rs IH]; simpl; [reflexivity |].
  rewrite IH. f_equal. f_equal. f_equal.
  destruct (returns_from discount rs (r + discount * g)); reflexivity.
Qed.

Lemma returns_from_nth discount rs g t :
  (t < length rs)%nat ->
  nth t (returns_from discount rs g) 0 =
  nth t rs 0 + discount * nth (S t) (returns_from discount rs g) g.
Proof.
  revert t. induction rs as [|r rs IH]; intros t Ht; simpl in Ht; [lia |].
  destruct t as [|t].
  - simpl. destruct (returns_from discount rs g); reflexivity.
  - cbn [returns_from nth]. rewrite IH by lia. reflexivity.
Qed.

Lemma firstn_succ_nth_error {A} (l : list A) t x :
  nth_error l t = Some x -> firstn (S t) l = firstn t l ++ [x].
Proof.
  revert t. induction l as [|y l IH]; intros [|t] Hx; simpl in *; try discriminate.
  - now inversion Hx.
  - f_equal. now apply IH.
Qed.

Lemma discount_loop_returns discount rewards t g acc :
  (t <= length rewards)%nat ->
  discount_loop discount rewards t g acc =
  Some (returns_from discount (firstn t rewards) g ++ acc).
Proof.
  revert g acc. induction t as [|t IH]; intros g acc Ht; [reflexivity |].
  destruct (nth_error rewards t) as [r|] eqn:Hr.
  - cbn [discount_loop]. rewrite Hr. rewrite IH by lia.
    rewrite (firstn_succ_nth_error _ _ _ Hr), returns_from_snoc.
    now rewrite <- app_assoc.
  - apply nth_error_None in Hr. lia.
Qed.

Lemma discount_loop_short discount rewards t g acc :
  (length rewards < t)%nat -> discount_loop discount rewards t g acc = None.
Proof.
  intros Ht. destruct t as [|t]; [lia |]. cbn [discount_loop].
  destruct (nth_error rewards t) eqn:Hr; [| reflexivity].
  assert (nth_error rewards t <> None) as Hn by congruence.
  apply nth_error_Some in Hn. lia.
Qed.

Example toy_learner_constructed box n_steps n_trajectories :
  Toy.fresh_learner box n_steps n_trajectories =
  Some (Toy.learner box n_steps n_trajectories, Toy.heap, 1%Z).
Proof. reflexivity. Qed.

(** C4. With a horizon [H >= 0] and at least [H] rewards,
    [calculate_discounted_rewards] returns a list [G] of length exactly [H]
    with [G_t = r_t + discount * G_(t+1)] for every [t < H], where [G_H] is
    [0] (the default of [nth] past the end); and every reward list with the
    same first [H] elements gives the same [G]. *)
Theorem calculate_discounted_rewards_recurrence {Env Box : Type}
    (self : @PPOLearner Env Box) (rewards : list Q) :
  (0 <= n_steps_per_trajectory self)%Z ->
  (Z.to_nat (n_steps_per_trajectory self) <= length rewards)%nat ->
  exists G : list Q,
    calculate_discounted_rewards self rewards = Some G
    /\ Z.of_nat (length G) = n_steps_per_trajectory self
    /\ (forall t, (t < length G)%nat ->
          nth t G 0 = nth t rewards 0 + discount self * nth (S t) G 0)
    /\ nth (length G) G 0 = 0
    /\ (forall rewards' : list Q,
          firstn (length G) rewards' = firstn (length G) rewards ->
          calculate_discounted_rewards self rewards' = Some G).
Proof.
  intros HH Hlen. unfold calculate_discounted_rewards.
  set (n := Z.to_nat (n_steps_per_trajectory self)) in *.
  exists (returns_from (discount self) (firstn n rewards) 0).
  assert (length (returns_from (discount self) (firstn n rewards) 0) = n) as HG.
  { rewrite returns_from_length. apply firstn_length_le. exact Hlen. }
  rewrite HG. repeat split.
  - rewrite discount_loop_returns by exact Hlen. now rewrite app_nil_r.
  - subst n. lia.
  - intros t Ht. rewrite returns_from_nth.
    + rewrite nth_firstn. apply Nat.ltb_lt in Ht. now rewrite Ht.
    + rewrite firstn_length_le by exact Hlen. exact Ht.
  - apply nth_overflow. rewrite HG. lia.
  - intros rewards' Hfirst.
    assert (n <= length rewards')%nat as Hlen'.
    { assert (length (firstn n rewards') = n) as Hn
        by (rewrite Hfirst; now apply firstn_length_le).
      rewrite length_firstn in Hn. lia. }
    rewrite discount_loop_returns by exact Hlen'.
    now rewrite app_nil_r, Hfirst.
Qed.

Lemma calculate_discounted_rewards_recurrence_witness :
  let self := Toy.learner None 2 3 in
  let rewards := [4; 6; 100] in
  exists G : list Q,
    calculate_discounted_rewards self rewards = Some G
    /\ Z.of_nat (length G) = 2%Z
    /\ (forall t, (t < length G)%nat ->
          nth t G 0 = nth t rewards 0 + (99 # 100) * nth (S t) G 0)
    /\ nth (length G) G 0 = 0
    /\ (forall rewards' : list Q,
          firstn (length G) rewards' = firstn (length G) rewards ->
          calculate_discounted_rewards self rewards' = Some G).
Proof.
  apply (calculate_discounted_rewards_recurrence (Toy.learner None 2 3) [4; 6; 100]).
  - simpl. lia.
  - simpl. lia.
Defined.

(** Fewer than [H] rewards: the first index read is out of range. *)
Lemma calculate_discounted_rewards_short {Env Box : Type}
    (self : @PPOLearner Env Box) (rewards : list Q) :
  (length rewards < Z.to_nat (n_steps_per_trajectory self))%nat ->
  calculate_discounted_rewards self rewards = None.
Proof. apply discount_loop_short. Qed.

(** ** Hyperparameter schedule *)

Section Schedule.

Context {Env Box : Type}.
Implicit Type self : @PPOLearner Env Box.

Lemma update_hyperparameters_entropy self :
  entropy_coefficient (update_hyperparameters self) =
  entropy_decay self * entropy_coefficient self.
Proof. reflexivity. Qed.

Lemma update_hyperparameters_threshold self :
  reversion_threshold (update_hyperparameters self) =
  py_max (reversion_threshold_decay self * reversion_threshold_decay self)
         (min_reversion_threshold self).
Proof. reflexivity. Qed.

Lemma iter_update_entropy_decay self N :
  entropy_decay (Nat.iter N update_hyperparameters self) = entropy_decay self.
Proof. induction N as [|N IH]; [reflexivity | exact IH]. Qed.

Lemma iter_update_entropy self N :
  entropy_coefficient (Nat.iter N update_hyperparameters self) ==
  entropy_coefficient self * entropy_decay self ^ Z.of_nat N.
Proof.
  induction N as [|N IH].
  - simpl. ring.
  - rewrite Nat.iter_succ, update_hyperparameters_entropy.
    rewrite iter_update_entropy_decay, IH.
    rewrite Nat2Z.inj_succ, <- Z.add_1_r.
    rewrite Qpower_plus' by lia. rewrite Qpower_1_r. ring.
Qed.


End Schedule.


(** C1. One call of [update_hyperparameters] on the default
    hyperparameters (threshold [0.2], decay [0.99], floor [0.1]) leaves the
    threshold [0.9801 = 0.99 * 0.99]: the threshold before the call is not
    read, and the result is not [max(0.99^2 * 0.2, 0.1) = 0.19602]. *)
Theorem update_hyperparameters_threshold_default :
  let self := Toy.learner None 128 8 in
  reversion_threshold self = 2 # 10
  /\ reversion_threshold (update_hyperparameters self) = 9801 # 10000
  /\ ~ reversion_threshold (update_hyperparameters self) ==
       py_max (reversion_threshold_decay self * reversion_threshold_decay self
               * reversion_threshold self)
              (min_reversion_threshold self)
  /\ reversion_threshold self < reversion_threshold (update_hyperparameters self).
Proof.
  cbv zeta. repeat split.
  intros Heq. vm_compute in Heq. discriminate.
Qed.

(** ** Performance tracking and the best-policy snapshot *)

Lemma Qltb_lt (a b : Q) : Qltb a b = true <-> a < b.
Proof.
  unfold Qltb. rewrite negb_true_iff. split.
  - intros Hle. apply Qnot_le_lt. intros Hba.
    apply Qle_bool_iff in Hba. congruence.
  - intros Hlt. destruct (Qle_bool b a) eqn:Hle; [| reflexivity].
    apply Qle_bool_iff in Hle. apply Qlt_not_le in Hlt. contradiction.
Qed.

(** On finite values with a non-zero best, the test of the [elif] is the
    comparison of the rational quotient with the threshold. *)
Lemma fraction_exceeds (best mean threshold : Q) :
  ~ best == 0 ->
  fgt (fdiv (fsub (Fin best) (Fin mean)) (Fin best)) (Fin threshold) = true
  <-> threshold < (best - mean) / best.
Proof.
  intros Hb. cbn [fsub fdiv].
  destruct (Qeq_bool best 0) eqn:Hz.
  - apply Qeq_bool_iff in Hz. contradiction.
  - cbn [fgt]. apply Qltb_lt.
Qed.

Lemma deepcopy_fresh {Params} (l : loc) (heap : gmap loc Params) :
  fst (deepcopy l heap) ∉ dom heap.
Proof. unfold deepcopy. destruct (heap !! l); apply is_fresh. Qed.

Lemma deepcopy_contents {Params} (l : loc) (heap : gmap loc Params) :
  snd (deepcopy l heap) !! fst (deepcopy l heap) = heap !! l.
Proof.
  unfold deepcopy. destruct (heap !! l) as [p|] eqn:Hl; cbn [fst snd].
  - apply lookup_insert_eq.
  - apply not_elem_of_dom. apply is_fresh.
Qed.

Lemma deepcopy_old {Params} (l l' : loc) (heap : gmap loc Params) :
  l' ∈ dom heap -> snd (deepcopy l heap) !! l' = heap !! l'.
Proof.
  intros Hin. unfold deepcopy. destruct (heap !! l) as [p|]; cbn [snd]; [| reflexivity].
  apply lookup_insert_ne. intros Heq. rewrite <- Heq in Hin.
  exact (is_fresh (dom heap) Hin).
Qed.

Section Tracking.

Context {Env Box Params : Type}.
Implicit Type self : @PPOLearner Env Box.
Implicit Type heap : gmap loc Params.

(** The three branches of [_track_performance], read off the result. *)
Lemma track_performance_branches self heap (rewards : list Q) :
  let mean_reward := np_mean rewards in
  let best := best_mean_reward self in
  let self' := fst (_track_performance self heap rewards) in
  let heap' := snd (_track_performance self heap rewards) in
  mean_rewards self' = mean_rewards self ++ [mean_reward]
  /\ reversion_threshold self' = reversion_threshold self
  /\ if fgt mean_reward best then
       best_mean_reward self' = mean_reward
       /\ policy self' = policy self
       /\ (best_policy self' ∉ dom heap)
       /\ heap' !! best_policy self' = heap !! policy self
       /\ (forall l, l ∈ dom heap -> heap' !! l = heap !! l)
     else
       best_mean_reward self' = best
       /\ best_policy self' = best_policy self
       /\ heap' = heap
       /\ policy self' =
            if fgt (fdiv (fsub best mean_reward) best)
                   (Fin (reversion_threshold self))
            then best_policy self else policy self.
Proof.
  cbv zeta. unfold _track_performance, track_branch.
  cbn [set_mean_rewards best_mean_reward reversion_threshold policy].
  destruct (fgt (np_mean rewards) (best_mean_reward self)) eqn:Hgt.
  - pose proof (deepcopy_fresh (policy self) heap) as Hfresh.
    pose proof (deepcopy_contents (policy self) heap) as Hcont.
    pose proof (fun l => deepcopy_old (policy self) l heap) as Hold.
    cbn [set_best_mean_reward set_mean_rewards policy].
    destruct (deepcopy (policy self) heap) as [copy heap'].
    cbn [fst snd] in *. repeat split; assumption.
  - destruct (fgt (fdiv (fsub (best_mean_reward self) (np_mean rewards))
                        (best_mean_reward self))
                  (Fin (reversion_threshold self))); repeat split.
Qed.

End Tracking.

(** ** Construction *)

Section Construction.

Context {Env State Action Box Params Rng : Type}.
Context {backend : Backend State Action Box Params Rng}.
Implicit Type a : @PPOLearnerArgs Env Box.
Implicit Type heap : gmap loc Params.

(** The network is built exactly when both lists of hidden-layer widths
    are non-empty and the backend can create the weights. *)
Lemma ActorCritic_init_layers (sd ad : Z) (actor_units critic_units : list Z)
    (rng : Rng) :
  ActorCritic_init sd ad actor_units critic_units rng =
  match actor_units, critic_units with
  | u :: us, v :: vs =>
      nn_init
        (Linear sd u :: NonLinearity :: hidden_layers u us
           ++ [Linear (List.last us u) ad; Softmax])
        (Linear sd v :: NonLinearity :: hidden_layers v vs
           ++ [Linear (List.last vs v) 1])
        rng
  | _, _ => None
  end.
Proof.
  unfold ActorCritic_init, actor_layers, critic_layers, body_layers.
  destruct actor_units as [|u us]; [reflexivity |].
  destruct critic_units as [|v vs]; [reflexivity |].
  assert (forall (l : list Z) x, List.last (x :: l) x = List.last l x) as Hlast.
  { intros l x. destruct l as [|y l]; [reflexivity |].
    cbn [List.last]. revert y. induction l as [|z l IH]; intros y; [reflexivity |].
    cbn [List.last] in *. apply IH. }
  rewrite !Hlast. reflexivity.
Qed.

(** What [__init__] returns once the network and the optimizer exist:
    every argument is stored as given, the tracker starts at minus infinity
    with an empty history, and the best policy is a second object with the
    contents of the first. *)
Lemma PPOLearner_init_built a heap (params : Params) (rng : Rng) :
  ActorCritic_init (arg_state_space_dimension a) (arg_action_space_dimension a)
    (arg_actor_hidden_layer_units a) (arg_critic_hidden_layer_units a)
    (manual_seed (arg_seed a)) = Some (params, rng) ->
  adam_init params (arg_learning_rate a) = true ->
  exists (self : @PPOLearner Env Box) (heap' : gmap loc Params),
    PPOLearner_init a heap = Some (self, heap', rng)
    /\ n_steps_per_trajectory self = arg_n_steps_per_trajectory a
    /\ n_trajectories_per_batch self = arg_n_trajectories_per_batch a
    /\ n_epochs self = arg_n_epochs a
    /\ n_iterations self = arg_n_iterations a
    /\ discount self = arg_discount a
    /\ clipping_param self = arg_clipping_param a
    /\ critic_coefficient self = arg_critic_coefficient a
    /\ entropy_coefficient self = arg_entropy_coefficient a
    /\ entropy_decay self = arg_entropy_decay a
    /\ reversion_threshold self = arg_reversion_threshold a
    /\ reversion_threshold_decay self = arg_reversion_threshold_decay a
    /\ min_reversion_threshold self = arg_min_reversion_threshold a
    /\ (randomize_init_state self = true <-> is_Some (random_init_box self))
    /\ mean_rewards self = []
    /\ best_mean_reward self = NegInf
    /\ optimizer self = policy self
    /\ policy self <> best_policy self
    /\ heap' !! policy self = Some params
    /\ heap' !! best_policy self = Some params.
Proof.
  intros Hnet Hadam. unfold PPOLearner_init. rewrite Hnet, Hadam. cbn [negb].
  set (l := fresh (dom heap)).
  unfold deepcopy. rewrite lookup_insert_eq.
  set (l' := fresh (dom (<[l:=params]> heap))).
  assert (l <> l') as Hne.
  { intros Heq. apply (is_fresh (dom (<[l:=params]> heap))).
    fold l'. rewrite <- Heq. apply elem_of_dom. rewrite lookup_insert_eq. eauto. }
  eexists _, _. split; [reflexivity |]. cbn.
  repeat split; try assumption.
  - destruct (arg_random_init_box a); [eauto | discriminate].
  - destruct (arg_random_init_box a); [reflexivity |]. intros [? ?]. discriminate.
  - rewrite lookup_insert_ne by congruence. apply lookup_insert_eq.
  - apply lookup_insert_eq.
Qed.

(** Construction fails exactly when the network or the optimizer cannot
    be built. *)
Lemma PPOLearner_init_fails a heap :
  PPOLearner_init a heap = None <->
  match ActorCritic_init (arg_state_space_dimension a)
          (arg_action_space_dimension a) (arg_actor_hidden_layer_units a)
          (arg_critic_hidden_layer_units a) (manual_seed (arg_seed a)) with
  | None => True
  | Some (params, _) => adam_init params (arg_learning_rate a) = false
  end.
Proof.
  unfold PPOLearner_init.
  destruct (ActorCritic_init _ _ _ _ _) as [[params rng]|]; [| tauto].
  destruct (adam_init params (arg_learning_rate a)); cbn [negb].
  - destruct (deepcopy _ _). split; discriminate.
  - tauto.
Qed.

(** Every learner that [__init__] returns has a box when it samples its
    initial state. *)
Lemma PPOLearner_init_has_box a heap (self : @PPOLearner Env Box)
    (heap' : gmap loc Params) (rng : Rng) :
  PPOLearner_init a heap = Some (self, heap', rng) -> has_box self.
Proof.
  unfold PPOLearner_init.
  destruct (ActorCritic_init _ _ _ _ _) as [[params rng0]|]; [| discriminate].
  destruct (adam_init params (arg_learning_rate a)); [| discriminate].
  cbn [negb]. destruct (deepcopy _ _) as [copy heap0].
  intros Hinit. inversion Hinit; subst. unfold has_box.
  cbn [randomize_init_state random_init_box].
  destruct (arg_random_init_box a); [eauto | discriminate].
Qed.

End Construction.




(** ** The reversion guard *)


(** ** Independence of the best-policy snapshot *)

Section Snapshot.

Context {Env Box Params : Type}.
Implicit Type self : @PPOLearner Env Box.
Implicit Type heap : gmap loc Params.

(** Two different objects: a write to the live policy is not seen through
    the best policy, and the other way round. *)
Lemma mutate_policy_separate self heap (update : Params -> Params) :
  policy self <> best_policy self ->
  mutate_policy update self heap !! best_policy self = heap !! best_policy self
  /\ mutate_best_policy update self heap !! policy self = heap !! policy self.
Proof.
  intros Hne. unfold mutate_policy, mutate_best_policy. split.
  - apply lookup_alter_ne. exact Hne.
  - apply lookup_alter_ne. congruence.
Qed.

(** One object under both names: the write is seen through both. *)
Lemma mutate_policy_aliased self heap (update : Params -> Params) :
  policy self = best_policy self ->
  mutate_policy update self heap !! best_policy self =
  update <$> heap !! best_policy self.
Proof.
  intros Heq. unfold mutate_policy. rewrite Heq. apply lookup_alter_eq.
Qed.

(** After a new best, the snapshot is an object of its own. *)
Lemma track_new_best_separate self heap (rewards : list Q) :
  fgt (np_mean rewards) (best_mean_reward self) = true ->
  policy self ∈ dom heap ->
  let self' := fst (_track_performance self heap rewards) in
  policy self' <> best_policy self'.
Proof.
  intros Hgt Hdom. cbv zeta.
  pose proof (track_performance_branches self heap rewards) as Hb.
  cbv zeta in Hb. rewrite Hgt in Hb.
  destruct Hb as (_ & _ & _ & Hpol & Hfresh & _).
  rewrite Hpol. intros Heq. rewrite Heq in Hdom. contradiction.
Qed.

(** After a reversion, the live policy is the snapshot object itself. *)
Lemma track_reverted_aliases self heap (rewards : list Q) :
  track_branch self (np_mean rewards) = Reverted ->
  let self' := fst (_track_performance self heap rewards) in
  policy self' = best_policy self'.
Proof.
  intros Hbranch. cbv zeta. unfold _track_performance.
  change (track_branch (set_mean_rewards _ self) (np_mean rewards))
    with (track_branch self (np_mean rewards)).
  rewrite Hbranch. reflexivity.
Qed.

End Snapshot.

(** C2. A run on which the invariant breaks.  The first batch (mean [10])
    is a new best and the snapshot is a separate object; one optimizer step
    follows; the second batch (mean [1]) reverts.  From then on the live
    policy and the best policy are one object: a write to the parameters of
    either changes what the other holds. *)
Theorem reversion_shares_best_policy :
  let self0 := Toy.learner None 128 8 in
  let '(self1, heap1) := _track_performance self0 Toy.heap [10] in
  let heap1' := optimizer_step Z.succ self1 heap1 in
  let '(self2, heap2) := _track_performance self1 heap1' [1] in
  policy self0 <> best_policy self0
  /\ policy self1 <> best_policy self1
  /\ track_branch self1 (np_mean [1]) = Reverted
  /\ policy self2 = best_policy self2
  /\ heap2 !! best_policy self2 = Some 9%Z
  /\ mutate_policy Z.succ self2 heap2 !! best_policy self2 = Some 10%Z
  /\ mutate_best_policy Z.succ self2 heap2 !! policy self2 = Some 10%Z.
Proof. vm_compute. repeat split; discriminate. Qed.

(** ** Trajectories and batches *)

#[global] Instance toy_environment_laws : EnvironmentLaws Toy.env Z Z.
Proof. split; reflexivity. Qed.

Lemma concat_uniform_length {A} (lists : list (list A)) (n : nat) :
  Forall (fun l => length l = n) lists ->
  length (concat lists) = (length lists * n)%nat.
Proof.
  induction 1 as [|l lists Hl _ IH]; [reflexivity |].
  cbn [concat length]. rewrite length_app, IH, Hl. lia.
Qed.

Lemma concat_uniform_nth_error {A} (lists : list (list A)) (n i t : nat)
    (l : list A) :
  Forall (fun l => length l = n) lists ->
  nth_error lists i = Some l -> (t < n)%nat ->
  nth_error (concat lists) (i * n + t) = nth_error l t.
Proof.
  intros Hall. revert i. induction Hall as [|l0 lists Hl0 _ IH]; intros i Hi Ht.
  - destruct i; discriminate.
  - destruct i as [|i]; cbn [concat nth_error] in *.
    + inversion Hi; subst l0. rewrite Nat.mul_0_l, Nat.add_0_l.
      apply nth_error_app1. lia.
    + rewrite nth_error_app2 by lia.
      replace (S i * n + t - length l0)%nat with (i * n + t)%nat by lia.
      now apply IH.
Qed.

Section Trajectories.

Context {Env State Action Box Params Rng : Type}.
Context {environment_ops : Environment Env State Action}.
Context {backend : Backend State Action Box Params Rng}.
Context {params_inhabited : Inhabited Params}.
Implicit Type self : @PPOLearner Env Box.
Implicit Type heap : gmap loc Params.

Lemma rollout_lengths (theta : Params) n state env rng states rewards :
  let '(_, _, states', rewards') := rollout theta n state env rng states rewards in
  length states' = (length states + n)%nat
  /\ length rewards' = (length rewards + n)%nat.
Proof.
  revert state env rng states rewards.
  induction n as [|n IH]; intros state env rng states rewards; cbn [rollout].
  - lia.
  - destruct (sample_action theta state rng) as [action rng'].
    destruct (step action env) as [[new_state reward] env'].
    specialize (IH new_state env' rng' (states ++ [state]) (rewards ++ [reward])).
    destruct (rollout theta n new_state env' rng' (states ++ [state])
                (rewards ++ [reward])) as [[[e r] ss] rs].
    rewrite !length_app in IH. cbn [length] in IH. lia.
Qed.

Lemma drop_last_length {A} (l : list A) : length (drop_last l) = pred (length l).
Proof.
  unfold drop_last. induction l as [|x l IH]; [reflexivity |].
  destruct l as [|y l]; [reflexivity |].
  change (removelast (x :: y :: l)) with (x :: removelast (y :: l)).
  cbn [length] in *. rewrite IH. reflexivity.
Qed.

(** One trajectory: the call returns, only the environment attribute is
    written (last by [reset], after [init] was set back), and the sequences
    have the lengths that the loop bounds give them. *)
Lemma generate_trajectory_returns self heap rng :
  has_box self ->
  exists env rng' states rewards discounted_rewards,
    generate_trajectory self heap rng =
      Some (set_environment (reset (set_init (init (environment self)) env)) self,
            rng', (states, rewards, discounted_rewards))
    /\ length rewards = Z.to_nat (n_steps_per_trajectory self + 1)
    /\ length states = pred (Z.to_nat (n_steps_per_trajectory self + 1))
    /\ length discounted_rewards = Z.to_nat (n_steps_per_trajectory self).
Proof.
  intros Hbox. unfold generate_trajectory.
  set (start := if randomize_init_state self then _ else _).
  assert (exists state env rng0, start = Some (state, env, rng0)) as (state & env & rng0 & ->).
  { subst start. destruct (randomize_init_state self) eqn:Hr.
    - destruct (Hbox Hr) as [box ->].
      destruct (box_sample box rng) as [state rng0]. eauto.
    - eauto. }
  pose proof (rollout_lengths (heap !!! policy self)
                (Z.to_nat (n_steps_per_trajectory self + 1)) state env rng0 [] [])
    as Hlen.
  destruct (rollout (heap !!! policy self)
              (Z.to_nat (n_steps_per_trajectory self + 1)) state env rng0 [] [])
    as [[[env' rng'] states] rewards].
  cbn [length] in Hlen. destruct Hlen as [Hs Hr].
  unfold calculate_discounted_rewards.
  cbn [set_environment discount n_steps_per_trajectory].
  rewrite discount_loop_returns by lia. rewrite app_nil_r.
  eexists env', rng', _, rewards, _. split; [reflexivity |].
  split; [lia |]. split.
  - rewrite drop_last_length. lia.
  - rewrite returns_from_length. apply firstn_length_le. lia.
Qed.

Lemma set_environment_has_box env self :
  has_box self -> has_box (set_environment env self).
Proof. exact (fun Hbox => Hbox). Qed.

(** The list comprehension of [generate_batch]: [n] trajectories, one
    after the other, each of the same shape.  Only the environment
    attribute is written, and its [init] is kept when the environment is
    lawful. *)
Lemma generate_trajectories_returns (n : nat) self heap rng :
  has_box self ->
  exists env' rng' trajectories,
    generate_trajectories n self heap rng =
      Some (set_environment env' self, rng', trajectories)
    /\ length trajectories = n
    /\ Forall (shaped self) trajectories
    /\ (EnvironmentLaws Env State Action -> init env' = init (environment self)).
Proof.
  revert self rng. induction n as [|n IH]; intros self rng Hbox.
  - exists (environment self), rng, []. cbn [generate_trajectories].
    repeat split; [destruct self; reflexivity | constructor].
  - cbn [generate_trajectories].
    destruct (generate_trajectory_returns self heap rng Hbox)
      as (env1 & rng1 & states & rewards & dr & -> & Hr & Hs & Hd).
    set (self1 := set_environment _ self).
    destruct (IH self1 rng1 (set_environment_has_box _ self Hbox))
      as (env' & rng' & trajectories & -> & Hn & Hall & Hinit).
    exists env', rng', ((states, rewards, dr) :: trajectories).
    split; [reflexivity |]. split; [cbn [length]; lia |]. split.
    + constructor; [| exact Hall]. repeat split; assumption.
    + intros Hlaws. rewrite (Hinit Hlaws). subst self1.
      cbn [set_environment environment].
      now rewrite init_reset, init_set_init.
Qed.

Lemma generate_batch_returns self heap rng :
  has_box self ->
  (1 <= n_trajectories_per_batch self)%Z ->
  exists env' rng' trajectories,
    generate_trajectories (Z.to_nat (n_trajectories_per_batch self)) self heap rng
      = Some (set_environment env' self, rng', trajectories)
    /\ generate_batch self heap rng =
         Some (set_environment env' self, rng',
               (concat (map (fun tr => fst (fst tr)) trajectories),
                concat (map (fun tr => snd (fst tr)) trajectories),
                concat (map (fun tr => snd tr) trajectories)))
    /\ length trajectories = Z.to_nat (n_trajectories_per_batch self)
    /\ Forall (shaped self) trajectories
    /\ (EnvironmentLaws Env State Action -> init env' = init (environment self)).
Proof.
  intros Hbox HB.
  destruct (generate_trajectories_returns
              (Z.to_nat (n_trajectories_per_batch self)) self heap rng Hbox)
    as (env' & rng' & trajectories & Hgen & Hn & Hall & Hinit).
  exists env', rng', trajectories. unfold generate_batch. rewrite Hgen.
  destruct trajectories as [|tr trajectories]; [cbn [length] in Hn; lia |].
  repeat split; assumption.
Qed.

Lemma Forall_map_length {A B} (P : A -> Prop) (f : A -> list B) (n : nat)
    (l : list A) :
  (forall x, P x -> length (f x) = n) ->
  Forall P l -> Forall (fun y => length y = n) (map f l).
Proof.
  intros HP. induction 1 as [|x l Hx _ IH]; cbn [map]; constructor; auto.
Qed.

(** C5. A batch of [B >= 1] trajectories of horizon [H >= 0]:
    [generate_batch] returns; its states and its discounted rewards have
    [B * H] elements each; and element [i * H + t] of either sequence is
    element [t] of the matching sequence of trajectory [i], the [i]-th
    trajectory generated. *)
Theorem generate_batch_order self heap rng :
  has_box self ->
  (1 <= n_trajectories_per_batch self)%Z ->
  (0 <= n_steps_per_trajectory self)%Z ->
  exists self' rng' trajectories states rewards discounted_rewards,
    generate_trajectories (Z.to_nat (n_trajectories_per_batch self)) self heap rng
      = Some (self', rng', trajectories)
    /\ generate_batch self heap rng =
         Some (self', rng', (states, rewards, discounted_rewards))
    /\ Z.of_nat (length trajectories) = n_trajectories_per_batch self
    /\ Z.of_nat (length states) =
         (n_trajectories_per_batch self * n_steps_per_trajectory self)%Z
    /\ Z.of_nat (length discounted_rewards) =
         (n_trajectories_per_batch self * n_steps_per_trajectory self)%Z
    /\ forall i t : nat,
         (Z.of_nat i < n_trajectories_per_batch self)%Z ->
         (Z.of_nat t < n_steps_per_trajectory self)%Z ->
         exists tr s g,
           nth_error trajectories i = Some tr
           /\ nth_error (fst (fst tr)) t = Some s
           /\ nth_error states (i * Z.to_nat (n_steps_per_trajectory self) + t)
                = Some s
           /\ nth_error (snd tr) t = Some g
           /\ nth_error discounted_rewards
                (i * Z.to_nat (n_steps_per_trajectory self) + t) = Some g.
Proof.
  intros Hbox HB HH.
  destruct (generate_batch_returns self heap rng Hbox HB)
    as (env' & rng' & trajectories & Hgen & Hbatch & Hn & Hall & _).
  set (h := Z.to_nat (n_steps_per_trajectory self)) in *.
  assert (Forall (fun l => length l = h)
            (map (fun tr => fst (fst tr)) trajectories)) as Hstates.
  { apply (Forall_map_length (shaped self)); [| exact Hall].
    intros tr (Hs & _ & _). rewrite Hs. subst h. lia. }
  assert (Forall (fun l => length l = h)
            (map (fun tr => snd tr) trajectories)) as Hdr.
  { apply (Forall_map_length (shaped self)); [| exact Hall].
    intros tr (_ & _ & Hd). exact Hd. }
  eexists _, _, trajectories, _, _, _.
  split; [exact Hgen |]. split; [exact Hbatch |].
  split; [lia |].
  split; [rewrite (concat_uniform_length _ h Hstates), length_map; subst h; nia |].
  split; [rewrite (concat_uniform_length _ h Hdr), length_map; subst h; nia |].
  intros i t Hi Ht.
  destruct (nth_error trajectories i) as [tr|] eqn:Htr.
  2:{ apply nth_error_None in Htr. lia. }
  assert (shaped self tr) as (Hs & _ & Hd).
  { rewrite List.Forall_forall in Hall. apply Hall. eapply nth_error_In. exact Htr. }
  destruct (nth_error (fst (fst tr)) t) as [s|] eqn:Hst.
  2:{ apply nth_error_None in Hst. lia. }
  destruct (nth_error (snd tr) t) as [g|] eqn:Hg.
  2:{ apply nth_error_None in Hg. lia. }
  exists tr, s, g. split; [reflexivity |]. split; [exact Hst |].
  split; [| split; [exact Hg |]].
  - rewrite <- Hst. apply concat_uniform_nth_error; [exact Hstates | | subst h; lia].
    rewrite nth_error_map, Htr. reflexivity.
  - rewrite <- Hg. apply concat_uniform_nth_error; [exact Hdr | | subst h; lia].
    rewrite nth_error_map, Htr. reflexivity.
Qed.

(** C7. Under an environment whose [init] is a plain attribute that
    [reset] leaves alone, [generate_trajectory] returns, and [init] is
    afterwards what it was before the call, with or without a random
    initial state. *)
Theorem generate_trajectory_restores_init
    (laws : EnvironmentLaws Env State Action) self heap rng :
  has_box self ->
  exists self' rng' tr,
    generate_trajectory self heap rng = Some (self', rng', tr)
    /\ init (environment self') = init (environment self).
Proof.
  intros Hbox.
  destruct (generate_trajectory_returns self heap rng Hbox)
    as (env & rng' & states & rewards & dr & Hgen & _).
  eexists _, rng', _. split; [exact Hgen |].
  cbn [set_environment environment]. now rewrite init_reset, init_set_init.
Qed.

(** C10. A batch of [B >= 1] trajectories of horizon [H >= 0]: every
    trajectory carries [H + 1] rewards against [H] states and [H]
    discounted rewards; the rewards of the batch are [B * (H + 1)] values,
    among them the reward of the last step of every trajectory; and the
    mean that [_track_performance] appends to the history for this batch is
    their sum divided by [B * (H + 1)]. *)
Theorem generate_batch_rewards self heap rng :
  has_box self ->
  (1 <= n_trajectories_per_batch self)%Z ->
  (0 <= n_steps_per_trajectory self)%Z ->
  exists self' rng' trajectories states rewards discounted_rewards,
    generate_trajectories (Z.to_nat (n_trajectories_per_batch self)) self heap rng
      = Some (self', rng', trajectories)
    /\ generate_batch self heap rng =
         Some (self', rng', (states, rewards, discounted_rewards))
    /\ Forall (fun tr =>
                 Z.of_nat (length (snd (fst tr))) = (n_steps_per_trajectory self + 1)%Z
                 /\ Z.of_nat (length (fst (fst tr))) = n_steps_per_trajectory self
                 /\ Z.of_nat (length (snd tr)) = n_steps_per_trajectory self)
              trajectories
    /\ Z.of_nat (length rewards) =
         (n_trajectories_per_batch self * (n_steps_per_trajectory self + 1))%Z
    /\ Z.of_nat (length states) =
         (n_trajectories_per_batch self * n_steps_per_trajectory self)%Z
    /\ (forall i : nat,
          (Z.of_nat i < n_trajectories_per_batch self)%Z ->
          exists tr r,
            nth_error trajectories i = Some tr
            /\ nth_error (snd (fst tr)) (Z.to_nat (n_steps_per_trajectory self))
                 = Some r
            /\ nth_error rewards
                 (i * Z.to_nat (n_steps_per_trajectory self + 1)
                  + Z.to_nat (n_steps_per_trajectory self)) = Some r)
    /\ (forall heap' : gmap loc Params,
          mean_rewards (fst (_track_performance self' heap' rewards)) =
          mean_rewards self ++
            [Fin (Qsum rewards /
                  inject_Z (n_trajectories_per_batch self
                            * (n_steps_per_trajectory self + 1)))]).
Proof.
  intros Hbox HB HH.
  destruct (generate_batch_returns self heap rng Hbox HB)
    as (env' & rng' & trajectories & Hgen & Hbatch & Hn & Hall & _).
  set (h := Z.to_nat (n_steps_per_trajectory self)) in *.
  set (h1 := Z.to_nat (n_steps_per_trajectory self + 1)) in *.
  assert (Forall (fun l => length l = h1)
            (map (fun tr => snd (fst tr)) trajectories)) as Hrewards.
  { apply (Forall_map_length (shaped self)); [| exact Hall].
    intros tr (_ & Hr & _). exact Hr. }
  assert (Forall (fun l => length l = h)
            (map (fun tr => fst (fst tr)) trajectories)) as Hstates.
  { apply (Forall_map_length (shaped self)); [| exact Hall].
    intros tr (Hs & _ & _). rewrite Hs. subst h. lia. }
  assert (Z.of_nat (length (concat (map (fun tr => snd (fst tr)) trajectories))) =
          (n_trajectories_per_batch self * (n_steps_per_trajectory self + 1))%Z)
    as Hlen.
  { rewrite (concat_uniform_length _ h1 Hrewards), length_map. subst h1. nia. }
  eexists _, _, trajectories, _, _, _.
  split; [exact Hgen |]. split; [exact Hbatch |]. split; [| split; [exact Hlen |]].
  { eapply List.Forall_impl; [| exact Hall].
    intros tr (Hs & Hr & Hd). fold h h1 in Hs, Hr, Hd. subst h h1. lia. }
  split; [rewrite (concat_uniform_length _ h Hstates), length_map; subst h; nia |].
  split.
  - intros i Hi.
    destruct (nth_error trajectories i) as [tr|] eqn:Htr.
    2:{ apply nth_error_None in Htr. lia. }
    assert (shaped self tr) as (_ & Hr & _).
    { rewrite List.Forall_forall in Hall. apply Hall. eapply nth_error_In. exact Htr. }
    fold h1 in Hr.
    destruct (nth_error (snd (fst tr)) h) as [r|] eqn:Hlast.
    2:{ apply nth_error_None in Hlast. subst h h1. lia. }
    exists tr, r. split; [reflexivity |]. split; [exact Hlast |].
    rewrite <- Hlast. apply concat_uniform_nth_error; [exact Hrewards | | subst h h1; lia].
    rewrite nth_error_map, Htr. reflexivity.
  - intros heap'.
    pose proof (track_performance_branches (set_environment env' self) heap'
                  (concat (map (fun tr => snd (fst tr)) trajectories))) as Hb.
    cbv zeta in Hb. destruct Hb as (-> & _).
    cbn [set_environment mean_rewards]. do 2 f_equal.
    destruct (concat (map (fun tr => snd (fst tr)) trajectories)) as [|r rs] eqn:Hc.
    + cbn [length] in Hlen. nia.
    + unfold np_mean. rewrite Hlen. reflexivity.
Qed.

End Trajectories.

Lemma toy_has_box box n_steps n_trajectories :
  has_box (Toy.learner box n_steps n_trajectories).
Proof. destruct box; intros Hr; [eexists; reflexivity | discriminate]. Qed.

Example toy_batch :
  generate_batch (Toy.learner (Some (3, 5)%Z) 2 3) Toy.heap 1%Z =
  Some (Toy.learner (Some (3, 5)%Z) 2 3, 13%Z,
        ([4; 6; 5; 5; 3; 4]%Z,
         [6; 6; 7; 5; 6; 8; 4; 6; 6],
         [6 + (99 # 100) * (6 + (99 # 100) * 0); 6 + (99 # 100) * 0;
          5 + (99 # 100) * (6 + (99 # 100) * 0); 6 + (99 # 100) * 0;
          4 + (99 # 100) * (6 + (99 # 100) * 0); 6 + (99 # 100) * 0])).
Proof. vm_compute. reflexivity. Qed.

Lemma generate_batch_order_witness :
  exists self' rng' states rewards discounted_rewards,
    generate_batch (Toy.learner (Some (3, 5)%Z) 2 3) Toy.heap 1%Z =
      Some (self', rng', (states, rewards, discounted_rewards))
    /\ Z.of_nat (length states) = (3 * 2)%Z
    /\ Z.of_nat (length discounted_rewards) = (3 * 2)%Z.
Proof.
  destruct (generate_batch_order (Toy.learner (Some (3, 5)%Z) 2 3) Toy.heap 1%Z)
    as (self' & rng' & trajectories & states & rewards & dr
        & _ & Hbatch & _ & Hs & Hd & _).
  - apply toy_has_box.
  - simpl. lia.
  - simpl. lia.
  - exists self', rng', states, rewards, dr. repeat split; assumption.
Defined.

Lemma generate_trajectory_restores_init_witness :
  exists self' rng' tr,
    generate_trajectory (Toy.learner (Some (3, 5)%Z) 2 3) Toy.heap 1%Z =
      Some (self', rng', tr)
    /\ init (environment self') = 0%Z.
Proof.
  apply (generate_trajectory_restores_init toy_environment_laws
           (Toy.learner (Some (3, 5)%Z) 2 3) Toy.heap 1%Z).
  apply toy_has_box.
Defined.

Lemma generate_batch_rewards_witness :
  exists self' rng' states rewards discounted_rewards,
    generate_batch (Toy.learner (Some (3, 5)%Z) 2 3) Toy.heap 1%Z =
      Some (self', rng', (states, rewards, discounted_rewards))
    /\ Z.of_nat (length rewards) = (3 * (2 + 1))%Z
    /\ Z.of_nat (length states) = (3 * 2)%Z
    /\ mean_rewards (fst (_track_performance self' Toy.heap rewards)) =
       [Fin (Qsum rewards / inject_Z (3 * (2 + 1)))].
Proof.
  destruct (generate_batch_rewards (Toy.learner (Some (3, 5)%Z) 2 3) Toy.heap 1%Z)
    as (self' & rng' & trajectories & states & rewards & dr
        & _ & Hbatch & _ & Hr & Hs & _ & Hmean).
  - apply toy_has_box.
  - simpl. lia.
  - simpl. lia.
  - exists self', rng', states, rewards, dr.
    repeat split; try assumption. apply Hmean.
Defined.

(** ** The loss *)

Section Loss.

Context {Env Box : Type}.
Context {elementary : Elementary}.
Implicit Type self : @PPOLearner Env Box.

Lemma Qsum_map_opp (l : list Q) : Qsum (map Qopp l) == - Qsum l.
Proof.
  induction l as [|x l IH]; cbn [map Qsum]; [reflexivity |].
  rewrite IH. ring.
Qed.

Lemma np_mean_opp (l : list Q) : feq (np_mean l) (fneg (np_mean (map Qopp l))).
Proof.
  destruct l as [|x l]; [exact I |].
  unfold np_mean. cbn [map fneg feq length]. rewrite length_map.
  change (Qsum (- x :: map Qopp l)) with (Qsum (map Qopp (x :: l))).
  rewrite Qsum_map_opp.
  set (n := inject_Z (Z.of_nat (S (length l)))).
  assert (~ n == 0) as Hn.
  { subst n. intros Hz. unfold Qeq in Hz. cbn in Hz. lia. }
  field. exact Hn.
Qed.

(** C6. Where the actor and the critic losses are computed, [ppo_loss]
    is the actor loss, plus the critic coefficient times the critic loss,
    plus the entropy coefficient times the entropy term.  The entropy term
    is the mean of [p * log (p + TOL)] over all entries of the probability
    tensor, which is the negative of the mean of [- p * log (p + TOL)], the
    summands of the entropy.  On finite values the term enters the sum with
    the sign of the coefficient, unchanged. *)
Theorem ppo_loss_entropy_term self (values discounted_rewards : list Q)
    (policy_probabilities old_policy_probabilities : list (list Q))
    (advantage_estimates : list Q) (actor critic : fval) :
  actor_loss self policy_probabilities old_policy_probabilities
    advantage_estimates = Some actor ->
  critic_loss values discounted_rewards = Some critic ->
  ppo_loss self values discounted_rewards policy_probabilities
    old_policy_probabilities advantage_estimates =
    Some (fadd (fadd actor (fmul (Fin (critic_coefficient self)) critic))
               (fmul (Fin (entropy_coefficient self))
                     (entropy_loss policy_probabilities)))
  /\ entropy_loss policy_probabilities =
       np_mean (map (fun p => p * torch_log (p + TOL)) (concat policy_probabilities))
  /\ feq (entropy_loss policy_probabilities)
         (fneg (np_mean (map (fun p => - (p * torch_log (p + TOL)))
                             (concat policy_probabilities))))
  /\ (forall a c e : Q,
        actor = Fin a -> critic = Fin c ->
        entropy_loss policy_probabilities = Fin e ->
        ppo_loss self values discounted_rewards policy_probabilities
          old_policy_probabilities advantage_estimates =
        Some (Fin (a + critic_coefficient self * c + entropy_coefficient self * e))).
Proof.
  intros Hactor Hcritic.
  assert (ppo_loss self values discounted_rewards policy_probabilities
            old_policy_probabilities advantage_estimates =
          Some (fadd (fadd actor (fmul (Fin (critic_coefficient self)) critic))
                     (fmul (Fin (entropy_coefficient self))
                           (entropy_loss policy_probabilities)))) as Hloss.
  { unfold ppo_loss. rewrite Hactor, Hcritic. reflexivity. }
  assert (entropy_loss policy_probabilities =
          np_mean (map (fun p => p * torch_log (p + TOL))
                       (concat policy_probabilities))) as Hentropy.
  { unfold entropy_loss. now rewrite <- concat_map. }
  split; [exact Hloss |]. split; [exact Hentropy |]. split.
  - rewrite Hentropy.
    rewrite <- (map_map (fun p => p * torch_log (p + TOL)) Qopp).
    apply np_mean_opp.
  - intros a c e -> -> He. rewrite Hloss, He. reflexivity.
Qed.

End Loss.

Lemma ppo_loss_entropy_term_witness :
  let self := Toy.learner None 2 3 in
  let probabilities := [[1 # 2; 1 # 2]; [1 # 4; 3 # 4]] in
  let old_probabilities := [[1 # 2; 1 # 2]; [1 # 2; 1 # 2]] in
  exists actor critic : fval,
    actor_loss (elementary := Toy.elementary) self probabilities old_probabilities
      [1; - (1)] = Some actor
    /\ feq actor (Fin (3 # 80))
    /\ critic_loss [0; 0] [1; - (1)] = Some critic
    /\ feq critic (Fin 1)
    /\ ppo_loss (elementary := Toy.elementary) self [0; 0] [1; - (1)] probabilities
         old_probabilities [1; - (1)] =
       Some (fadd (fadd actor (fmul (Fin (critic_coefficient self)) critic))
                  (fmul (Fin (entropy_coefficient self))
                        (entropy_loss (elementary := Toy.elementary) probabilities))).
Proof.
  cbv zeta. eexists _, _.
  split; [vm_compute; reflexivity |]. split; [reflexivity |].
  split; [vm_compute; reflexivity |]. split; [reflexivity |].
  apply (ppo_loss_entropy_term (elementary := Toy.elementary) (Toy.learner None 2 3)
           [0; 0] [1; - (1)] [[1 # 2; 1 # 2]; [1 # 4; 3 # 4]]
           [[1 # 2; 1 # 2]; [1 # 2; 1 # 2]] [1; - (1)]).
  - vm_compute. reflexivity.
  - vm_compute. reflexivity.
Defined.

(** * Further properties *)

(** ** Discounted returns in closed form *)

Lemma returns_from_hd discount rs :
  hd 0 (returns_from discount rs 0) = discounted_sum discount rs.
Proof.
  induction rs as [|r rs IH]; [reflexivity |].
  cbn [returns_from discounted_sum hd]. now rewrite IH.
Qed.

Lemma returns_from_discounted_sum discount rs t :
  nth t (returns_from discount rs 0) 0 = discounted_sum discount (skipn t rs).
Proof.
  revert t. induction rs as [|r rs IH]; intros [|t]; try reflexivity.
  - cbn [returns_from nth skipn discounted_sum]. now rewrite returns_from_hd.
  - cbn [returns_from nth skipn]. apply IH.
Qed.

Lemma discounted_sum_powers discount rs :
  discounted_sum discount rs ==
  Qsum (map (fun j => discount ^ Z.of_nat j * nth j rs 0) (seq 0 (length rs))).
Proof.
  induction rs as [|r rs IH]; [reflexivity |].
  cbn [discounted_sum length seq map Qsum nth]. rewrite IH.
  rewrite <- seq_shift, map_map.
  assert (forall l : list nat,
            discount * Qsum (map (fun j => discount ^ Z.of_nat j * nth j rs 0) l) ==
            Qsum (map (fun j => discount ^ Z.of_nat (S j) * nth j rs 0) l))
    as Hshift.
  { induction l as [|j l IHl]; cbn [map Qsum]; [ring |].
    rewrite <- IHl.
    rewrite Nat2Z.inj_succ, <- Z.add_1_r, Qpower_plus' by lia.
    rewrite Qpower_1_r. ring. }
  rewrite Hshift. change (discount ^ Z.of_nat 0) with 1. ring.
Qed.

(** X1. The return at step [t] is the discounted sum of the rewards from
    [t] to the horizon: [G_t = sum over j < H - t of discount^j * r_(t+j)]. *)
Theorem calculate_discounted_rewards_closed_form {Env Box : Type}
    (self : @PPOLearner Env Box) (rewards G : list Q) (t : nat) :
  calculate_discounted_rewards self rewards = Some G ->
  (t < length G)%nat ->
  nth t G 0 ==
  Qsum (map (fun j => discount self ^ Z.of_nat j * nth (t + j) rewards 0)
            (seq 0 (length G - t))).
Proof.
  unfold calculate_discounted_rewards.
  set (n := Z.to_nat (n_steps_per_trajectory self)).
  intros HG Ht.
  destruct (Nat.le_gt_cases n (length rewards)) as [Hlen | Hshort].
  2:{ rewrite discount_loop_short in HG by exact Hshort. discriminate. }
  rewrite discount_loop_returns, app_nil_r in HG by exact Hlen.
  injection HG as HG'. subst G.
  rewrite returns_from_length, firstn_length_le in * by exact Hlen.
  rewrite returns_from_discounted_sum, discounted_sum_powers.
  rewrite length_skipn, firstn_length_le by exact Hlen.
  assert (forall l : list nat,
            Forall (fun j => (t + j < n)%nat) l ->
            map (fun j => discount self ^ Z.of_nat j
                          * nth j (skipn t (firstn n rewards)) 0) l =
            map (fun j => discount self ^ Z.of_nat j * nth (t + j) rewards 0) l)
    as Hmap.
  { induction 1 as [|j l Hj _ IH]; [reflexivity |]. cbn [map]. rewrite IH.
    do 2 f_equal. rewrite nth_skipn, nth_firstn.
    apply Nat.ltb_lt in Hj. now rewrite Hj. }
  rewrite Hmap; [reflexivity |].
  apply List.Forall_forall. intros j Hj. apply in_seq in Hj. lia.
Qed.

Lemma calculate_discounted_rewards_closed_form_witness :
  nth 0 [4 + (99 # 100) * (6 + (99 # 100) * 0); 6 + (99 # 100) * 0] 0 ==
  Qsum (map (fun j => (99 # 100) ^ Z.of_nat j * nth (0 + j) [4; 6; 100] 0)
            (seq 0 (2 - 0))).
Proof.
  apply (calculate_discounted_rewards_closed_form (Toy.learner None 2 3)
           [4; 6; 100]
           [4 + (99 # 100) * (6 + (99 # 100) * 0); 6 + (99 # 100) * 0] 0%nat).
  - reflexivity.
  - simpl. lia.
Defined.

(** X2. [calculate_discounted_rewards] raises [IndexError] exactly when
    there are fewer rewards than the horizon; a horizon of zero or less
    asks for nothing and gives the empty list. *)
Theorem calculate_discounted_rewards_raises {Env Box : Type}
    (self : @PPOLearner Env Box) (rewards : list Q) :
  (calculate_discounted_rewards self rewards = None
   <-> (Z.of_nat (length rewards) < n_steps_per_trajectory self)%Z)
  /\ ((n_steps_per_trajectory self <= 0)%Z ->
      calculate_discounted_rewards self rewards = Some []).
Proof.
  unfold calculate_discounted_rewards.
  set (n := Z.to_nat (n_steps_per_trajectory self)). split.
  - split.
    + intros Hnone.
      destruct (Nat.le_gt_cases n (length rewards)) as [Hlen | Hshort]; [| lia].
      rewrite discount_loop_returns in Hnone by exact Hlen. discriminate.
    + intros Hshort. apply discount_loop_short. lia.
  - intros Hneg. replace n with 0%nat by lia. reflexivity.
Qed.

(** ** The layers of the network *)

Lemma output_width_app (width : Z) (l1 l2 : list layer) :
  output_width width (l1 ++ l2) =
  match output_width width l1 with
  | Some width' => output_width width' l2
  | None => None
  end.
Proof.
  revert width. induction l1 as [|[i o| |] l1 IH]; intros width; cbn [app output_width].
  - reflexivity.
  - destruct (i =? width)%Z; [apply IH | reflexivity].
  - apply IH.
  - apply IH.
Qed.

Lemma last_cons_default {A} (l : list A) (x d : A) :
  List.last (x :: l) d = List.last l x.
Proof.
  revert x d. induction l as [|y l IH]; intros x d; [reflexivity |].
  change (List.last (x :: y :: l) d) with (List.last (y :: l) d).
  rewrite IH. symmetry. apply IH.
Qed.

Lemma hidden_layers_width (previous : Z) (units : list Z) :
  output_width previous (hidden_layers previous units) =
    Some (List.last units previous)
  /\ length (hidden_layers previous units) = (2 * length units)%nat.
Proof.
  revert previous. induction units as [|u units IH]; intros previous.
  - split; reflexivity.
  - cbn [hidden_layers output_width length]. rewrite Z.eqb_refl.
    destruct (IH u) as [Hw Hl]. rewrite Hw, Hl. split; [| lia].
    now rewrite last_cons_default.
Qed.

Lemma body_layers_width (sd : Z) (u : Z) (units : list Z) :
  exists layers,
    body_layers sd (u :: units) = Some (layers, List.last units u)
    /\ output_width sd layers = Some (List.last units u)
    /\ length layers = (2 * length (u :: units))%nat.
Proof.
  destruct (hidden_layers_width u units) as [Hw Hl].
  eexists. split; [| split].
  - unfold body_layers. now rewrite last_cons_default.
  - cbn [output_width]. rewrite Z.eqb_refl. exact Hw.
  - cbn [length]. rewrite Hl. lia.
Qed.

(** X3. With non-empty lists of hidden widths, both sub-networks are
    built and their layers fit together: fed with [state_space_dimension]
    features, every [Linear] receives the width the layer before it
    produces; the actor ends in a [Linear] to [action_space_dimension]
    followed by [Softmax], the critic in a [Linear] to width [1]; and the
    stacks have [2 * n + 2] and [2 * n + 1] layers for [n] hidden widths. *)
Theorem network_layers_fit (sd ad : Z) (actor_units critic_units : list Z) :
  actor_units <> [] -> critic_units <> [] ->
  exists actor critic,
    actor_layers sd ad actor_units = Some actor
    /\ critic_layers sd critic_units = Some critic
    /\ output_width sd actor = Some ad
    /\ output_width sd critic = Some 1%Z
    /\ length actor = (2 * length actor_units + 2)%nat
    /\ length critic = (2 * length critic_units + 1)%nat
    /\ List.last actor NonLinearity = Softmax
    /\ (exists width, List.last critic NonLinearity = Linear width 1).
Proof.
  intros Ha Hc.
  destruct actor_units as [|u us]; [congruence |].
  destruct critic_units as [|v vs]; [congruence |].
  destruct (body_layers_width sd u us) as (la & Hla & Hwa & Hna).
  destruct (body_layers_width sd v vs) as (lc & Hlc & Hwc & Hnc).
  unfold actor_layers, critic_layers. rewrite Hla, Hlc.
  eexists _, _. split; [reflexivity |]. split; [reflexivity |].
  repeat split.
  - rewrite output_width_app, Hwa. cbn [output_width]. now rewrite Z.eqb_refl.
  - rewrite output_width_app, Hwc. cbn [output_width]. now rewrite Z.eqb_refl.
  - rewrite length_app, Hna. cbn [length]. lia.
  - rewrite length_app, Hnc. cbn [length]. lia.
  - change [Linear (List.last us u) ad; Softmax]
      with ([Linear (List.last us u) ad] ++ [Softmax]).
    rewrite app_assoc. apply List.last_last.
  - exists (List.last vs v). apply List.last_last.
Qed.

Lemma network_layers_fit_witness :
  exists actor critic,
    actor_layers 4 3 [128; 64]%Z = Some actor
    /\ critic_layers 4 [64; 32]%Z = Some critic
    /\ output_width 4 actor = Some 3%Z
    /\ output_width 4 critic = Some 1%Z
    /\ length actor = (2 * 2 + 2)%nat
    /\ length critic = (2 * 2 + 1)%nat
    /\ List.last actor NonLinearity = Softmax
    /\ (exists width, List.last critic NonLinearity = Linear width 1).
Proof.
  apply (network_layers_fit 4 3 [128; 64]%Z [64; 32]%Z); discriminate.
Defined.

(** X4. An empty list of hidden widths, for the actor or for the critic,
    makes construction raise ([IndexError] on [units[0]]), whatever the
    other arguments and the backend. *)
Theorem PPOLearner_init_empty_hidden_layers
    {Env State Action Box Params Rng : Type}
    {backend : Backend State Action Box Params Rng}
    (a : @PPOLearnerArgs Env Box) (heap : gmap loc Params) :
  arg_actor_hidden_layer_units a = [] \/ arg_critic_hidden_layer_units a = [] ->
  ActorCritic_init (arg_state_space_dimension a) (arg_action_space_dimension a)
    (arg_actor_hidden_layer_units a) (arg_critic_hidden_layer_units a)
    (manual_seed (arg_seed a)) = None
  /\ PPOLearner_init a heap = None.
Proof.
  intros Hempty.
  assert (ActorCritic_init (arg_state_space_dimension a)
            (arg_action_space_dimension a) (arg_actor_hidden_layer_units a)
            (arg_critic_hidden_layer_units a) (manual_seed (arg_seed a)) = None)
    as Hnet.
  { rewrite ActorCritic_init_layers.
    destruct Hempty as [-> | ->]; [reflexivity |].
    destruct (arg_actor_hidden_layer_units a); reflexivity. }
  split; [exact Hnet |]. apply PPOLearner_init_fails. now rewrite Hnet.
Qed.

Lemma PPOLearner_init_empty_hidden_layers_witness :
  ActorCritic_init 1 3 [] [4%Z] (manual_seed 0) = None
  /\ PPOLearner_init toy_args_without_actor_layers (∅ : gmap loc Z) = None.
Proof.
  apply (PPOLearner_init_empty_hidden_layers toy_args_without_actor_layers ∅).
  left. reflexivity.
Defined.

(** X5. What construction leaves in the heap: the policy and the best
    policy are two new objects with the same contents, the optimizer is
    bound to the policy object, no object that existed before is touched,
    and the tracker starts with minus infinity and an empty history. *)
Theorem PPOLearner_init_objects
    {Env State Action Box Params Rng : Type}
    {backend : Backend State Action Box Params Rng}
    (a : @PPOLearnerArgs Env Box) (heap heap' : gmap loc Params)
    (self : @PPOLearner Env Box) (rng : Rng) :
  PPOLearner_init a heap = Some (self, heap', rng) ->
  (policy self ∉ dom heap)
  /\ (best_policy self ∉ dom heap)
  /\ policy self <> best_policy self
  /\ optimizer self = policy self
  /\ (exists params,
        heap' !! policy self = Some params
        /\ heap' !! best_policy self = Some params)
  /\ (forall l, l ∈ dom heap -> heap' !! l = heap !! l)
  /\ best_mean_reward self = NegInf
  /\ mean_rewards self = []
  /\ snapshot_apart self heap'.
Proof.
  unfold PPOLearner_init.
  destruct (ActorCritic_init _ _ _ _ _) as [[params rng0]|]; [| discriminate].
  destruct (adam_init params (arg_learning_rate a)); [| discriminate].
  cbn [negb]. unfold deepcopy. rewrite lookup_insert_eq.
  set (l := fresh (dom heap)).
  set (l' := fresh (dom (<[l:=params]> heap))).
  assert (l ∉ dom heap) as Hl by apply is_fresh.
  assert (l' ∉ dom (<[l:=params]> heap)) as Hl' by apply is_fresh.
  rewrite dom_insert_L in Hl'.
  assert (l <> l') as Hne by set_solver.
  assert (l' ∉ dom heap) as Hl'' by set_solver.
  intros Hinit. injection Hinit as <- <- <-.
  unfold snapshot_apart.
  cbn [policy best_policy optimizer best_mean_reward mean_rewards].
  assert (<[l':=params]> (<[l:=params]> heap) !! l = Some params) as Hlive
    by (rewrite lookup_insert_ne by congruence; apply lookup_insert_eq).
  assert (<[l':=params]> (<[l:=params]> heap) !! l' = Some params) as Hbest
    by apply lookup_insert_eq.
  repeat split; try assumption; try congruence;
    try (apply elem_of_dom; eauto).
  - exists params. split; assumption.
  - intros k Hk. rewrite !lookup_insert_ne; [reflexivity | |]; congruence.
Qed.

Lemma PPOLearner_init_objects_witness :
  let self := Toy.learner None 128 8 in
  (policy self ∉ dom (∅ : gmap loc Z))
  /\ (best_policy self ∉ dom (∅ : gmap loc Z))
  /\ policy self <> best_policy self
  /\ optimizer self = policy self
  /\ (exists params,
        Toy.heap !! policy self = Some params
        /\ Toy.heap !! best_policy self = Some params)
  /\ (forall l, l ∈ dom (∅ : gmap loc Z) -> Toy.heap !! l = (∅ : gmap loc Z) !! l)
  /\ best_mean_reward self = NegInf
  /\ mean_rewards self = []
  /\ snapshot_apart self Toy.heap.
Proof.
  apply (PPOLearner_init_objects (Toy.args None 128 8) ∅ Toy.heap
           (Toy.learner None 128 8) 1%Z).
  reflexivity.
Defined.

(** ** More on trajectories and batches *)

Section MoreTrajectories.

Context {Env State Action Box Params Rng : Type}.
Context {environment_ops : Environment Env State Action}.
Context {backend : Backend State Action Box Params Rng}.
Context {params_inhabited : Inhabited Params}.
Implicit Type self : @PPOLearner Env Box.
Implicit Type heap : gmap loc Params.



Lemma rollout_accumulates (theta : Params) n state env rng states rewards :
  let '(env', rng', states', rewards') :=
    rollout theta n state env rng [] [] in
  rollout theta n state env rng states rewards =
  (env', rng', states ++ states', rewards ++ rewards').
Proof.
  revert state env rng states rewards.
  induction n as [|n IH]; intros state env rng states rewards; cbn [rollout].
  - now rewrite !app_nil_r.
  - destruct (sample_action theta state rng) as [action rng1].
    destruct (step action env) as [[new_state reward] env1].
    pose proof (IH new_state env1 rng1 (states ++ [state]) (rewards ++ [reward]))
      as Hacc.
    pose proof (IH new_state env1 rng1 ([] ++ [state]) ([] ++ [reward])) as Hone.
    destruct (rollout theta n new_state env1 rng1 [] [])
      as [[[env' rng'] states'] rewards'].
    rewrite Hacc, Hone, <- !app_assoc. reflexivity.
Qed.

(** X8. The first state of a trajectory of horizon [H >= 1] is the one
    the rollout starts from: the environment's [init] when no random
    initial state is configured, the sample from the box otherwise. *)
Theorem generate_trajectory_first_state self heap rng self' rng' states rewards
    discounted_rewards :
  (1 <= n_steps_per_trajectory self)%Z ->
  generate_trajectory self heap rng =
    Some (self', rng', (states, rewards, discounted_rewards)) ->
  nth_error states 0 =
  Some (if randomize_init_state self then
          match random_init_box self with
          | Some box => fst (box_sample box rng)
          | None => init (environment self)
          end
        else init (environment self)).
Proof.
  intros HH. unfold generate_trajectory.
  set (start := if randomize_init_state self then _ else _).
  set (first := if randomize_init_state self then _ else _).
  assert (match start with
          | Some (state, _, _) => state = first
          | None => True
          end) as Hstart.
  { subst start first. destruct (randomize_init_state self); [| reflexivity].
    destruct (random_init_box self) as [box|]; [| exact I].
    destruct (box_sample box rng). reflexivity. }
  destruct start as [[[state env] rng0]|]; [| discriminate]. subst first.
  replace (Z.to_nat (n_steps_per_trajectory self + 1))
    with (S (S (Z.to_nat (n_steps_per_trajectory self - 1)))) by lia.
  cbn [rollout].
  destruct (sample_action (heap !!! policy self) state rng0) as [action rng1].
  destruct (step action env) as [[state1 reward1] env1].
  destruct (sample_action (heap !!! policy self) state1 rng1) as [action2 rng2].
  destruct (step action2 env1) as [[state2 reward2] env2].
  pose proof (rollout_accumulates (heap !!! policy self)
                (Z.to_nat (n_steps_per_trajectory self - 1)) state2 env2 rng2
                (([] ++ [state]) ++ [state1]) (([] ++ [reward1]) ++ [reward2]))
    as Hacc.
  destruct (rollout (heap !!! policy self)
              (Z.to_nat (n_steps_per_trajectory self - 1)) state2 env2 rng2 [] [])
    as [[[env' rng''] states'] rewards'].
  rewrite Hacc.
  destruct (calculate_discounted_rewards _ _); [| discriminate].
  intros Hgen. injection Hgen as _ _ <- _ _.
  cbn [app drop_last removelast nth_error]. f_equal. exact Hstart.
Qed.

(** X9. The rewards of a batch of [B >= 1] trajectories of horizon
    [H >= 0] keep the order of generation with a stride of [H + 1]: element
    [i * (H + 1) + t] is reward [t] of trajectory [i], for every [t <= H]. *)
Theorem generate_batch_rewards_order self heap rng :
  has_box self ->
  (1 <= n_trajectories_per_batch self)%Z ->
  (0 <= n_steps_per_trajectory self)%Z ->
  exists self' rng' trajectories states rewards discounted_rewards,
    generate_trajectories (Z.to_nat (n_trajectories_per_batch self)) self heap rng
      = Some (self', rng', trajectories)
    /\ generate_batch self heap rng =
         Some (self', rng', (states, rewards, discounted_rewards))
    /\ forall i t : nat,
         (Z.of_nat i < n_trajectories_per_batch self)%Z ->
         (Z.of_nat t <= n_steps_per_trajectory self)%Z ->
         exists tr r,
           nth_error trajectories i = Some tr
           /\ nth_error (snd (fst tr)) t = Some r
           /\ nth_error rewards
                (i * Z.to_nat (n_steps_per_trajectory self + 1) + t) = Some r.
Proof.
  intros Hbox HB HH.
  destruct (generate_batch_returns self heap rng Hbox HB)
    as (env' & rng' & trajectories & Hgen & Hbatch & Hn & Hall & _).
  set (h1 := Z.to_nat (n_steps_per_trajectory self + 1)) in *.
  assert (Forall (fun l => length l = h1)
            (map (fun tr => snd (fst tr)) trajectories)) as Hrewards.
  { apply (Forall_map_length (shaped self)); [| exact Hall].
    intros tr (_ & Hr & _). exact Hr. }
  eexists _, _, trajectories, _, _, _.
  split; [exact Hgen |]. split; [exact Hbatch |].
  intros i t Hi Ht.
  destruct (nth_error trajectories i) as [tr|] eqn:Htr.
  2:{ apply nth_error_None in Htr. lia. }
  assert (shaped self tr) as (_ & Hr & _).
  { rewrite List.Forall_forall in Hall. apply Hall. eapply nth_error_In. exact Htr. }
  fold h1 in Hr.
  destruct (nth_error (snd (fst tr)) t) as [r|] eqn:Hrt.
  2:{ apply nth_error_None in Hrt. subst h1. lia. }
  exists tr, r. split; [reflexivity |]. split; [exact Hrt |].
  rewrite <- Hrt. apply concat_uniform_nth_error; [exact Hrewards | | subst h1; lia].
  rewrite nth_error_map, Htr. reflexivity.
Qed.

(** X10. A whole batch leaves the learner as it was except for the
    environment, and under a lawful environment the environment's [init] is
    the one from before the batch. *)
Theorem generate_batch_frame (laws : EnvironmentLaws Env State Action)
    self heap rng :
  has_box self ->
  (1 <= n_trajectories_per_batch self)%Z ->
  exists env' rng' batch,
    generate_batch self heap rng = Some (set_environment env' self, rng', batch)
    /\ init env' = init (environment self).
Proof.
  intros Hbox HB.
  destruct (generate_batch_returns self heap rng Hbox HB)
    as (env' & rng' & trajectories & _ & Hbatch & _ & _ & Hinit).
  eexists env', rng', _. split; [exact Hbatch |]. exact (Hinit laws).
Qed.

End MoreTrajectories.



Lemma generate_trajectory_first_state_witness :
  nth_error [4%Z; 6%Z] 0 = Some (fst (box_sample (3, 5)%Z 1%Z)).
Proof.
  apply (generate_trajectory_first_state (Toy.learner (Some (3, 5)%Z) 2 3)
           Toy.heap 1%Z
           (Toy.learner (Some (3, 5)%Z) 2 3) 5%Z [4%Z; 6%Z] [6; 6; 7]
           [6 + (99 # 100) * (6 + (99 # 100) * 0); 6 + (99 # 100) * 0]).
  - simpl. lia.
  - vm_compute. reflexivity.
Defined.

Lemma generate_batch_rewards_order_witness :
  exists self' rng' states rewards discounted_rewards,
    generate_batch (Toy.learner (Some (3, 5)%Z) 2 3) Toy.heap 1%Z =
      Some (self', rng', (states, rewards, discounted_rewards))
    /\ is_Some (nth_error rewards (2 * Z.to_nat (2 + 1) + 2)).
Proof.
  destruct (generate_batch_rewards_order (Toy.learner (Some (3, 5)%Z) 2 3)
              Toy.heap 1%Z)
    as (self' & rng' & trajectories & states & rewards & dr & _ & Hbatch & Horder).
  - apply toy_has_box.
  - simpl. lia.
  - simpl. lia.
  - exists self', rng', states, rewards, dr. split; [exact Hbatch |].
    destruct (Horder 2%nat 2%nat) as (tr & r & _ & _ & Hr); [simpl; lia .. |].
    exists r. exact Hr.
Defined.

Lemma generate_batch_frame_witness :
  exists env' rng' batch,
    generate_batch (Toy.learner (Some (3, 5)%Z) 2 3) Toy.heap 1%Z =
      Some (set_environment env' (Toy.learner (Some (3, 5)%Z) 2 3), rng', batch)
    /\ init env' = 0%Z.
Proof.
  apply (generate_batch_frame toy_environment_laws
           (Toy.learner (Some (3, 5)%Z) 2 3) Toy.heap 1%Z).
  - apply toy_has_box.
  - simpl. lia.
Defined.

(** ** The tracker over a run *)

Lemma fgt_irrefl (a : fval) : fgt a a = false.
Proof.
  destruct a as [q| | |]; try reflexivity.
  cbn [fgt]. destruct (Qltb q q) eqn:Hq; [| reflexivity].
  apply Qltb_lt in Hq. lra.
Qed.

Lemma fgt_false_trans (m b b' : fval) :
  fgt m b = false -> fgt b' b = true -> fgt m b' = false.
Proof.
  destruct m as [x| | |], b as [y| | |], b' as [z| | |];
    cbn [fgt]; intros Hmb Hb'b; try reflexivity; try discriminate.
  apply Qltb_lt in Hb'b.
  destruct (Qltb z x) eqn:Hzx; [| reflexivity].
  apply Qltb_lt in Hzx.
  assert (Qltb y x = true) as Hyx by (apply Qltb_lt; lra).
  congruence.
Qed.

Section TrackerRun.

Context {Env Box Params : Type}.
Implicit Type self : @PPOLearner Env Box.
Implicit Type heap : gmap loc Params.

Lemma track_run_cons self heap (rewards : list Q) (batches : list (list Q)) :
  track_run self heap (rewards :: batches) =
  (track_branch self (np_mean rewards)
     :: fst (fst (track_run (fst (_track_performance self heap rewards))
                    (snd (_track_performance self heap rewards)) batches)),
   snd (fst (track_run (fst (_track_performance self heap rewards))
               (snd (_track_performance self heap rewards)) batches)),
   snd (track_run (fst (_track_performance self heap rewards))
          (snd (_track_performance self heap rewards)) batches)).
Proof.
  cbn [track_run]. destruct (_track_performance self heap rewards) as [self' heap'].
  cbn [fst snd]. destruct (track_run self' heap' batches) as [[branches s] h].
  reflexivity.
Qed.

(** One batch: the best mean either stays or rises, and the mean of the
    batch does not exceed it. *)
Lemma track_performance_best self heap (rewards : list Q) :
  let self' := fst (_track_performance self heap rewards) in
  (best_mean_reward self' = best_mean_reward self
   \/ (best_mean_reward self' = np_mean rewards
       /\ fgt (best_mean_reward self') (best_mean_reward self) = true))
  /\ fgt (np_mean rewards) (best_mean_reward self') = false.
Proof.
  cbv zeta.
  pose proof (track_performance_branches self heap rewards) as Hb.
  cbv zeta in Hb. destruct Hb as (_ & _ & Hb).
  destruct (fgt (np_mean rewards) (best_mean_reward self)) eqn:Hgt.
  - destruct Hb as (-> & _). split; [right; split; [reflexivity | exact Hgt] |].
    apply fgt_irrefl.
  - destruct Hb as (-> & _). split; [left; reflexivity | exact Hgt].
Qed.

(** X11. Over any sequence of batches the history is append-only: the
    entries that were there stay in place, and one mean per batch is added
    in order. *)
Theorem track_run_history self heap (batches : list (list Q)) :
  mean_rewards (snd (fst (track_run self heap batches))) =
    mean_rewards self ++ map np_mean batches
  /\ length (fst (fst (track_run self heap batches))) = length batches.
Proof.
  revert self heap. induction batches as [|rewards batches IH]; intros self heap.
  - cbn [track_run fst snd map length]. now rewrite app_nil_r.
  - rewrite track_run_cons. cbn [fst snd map length].
    destruct (IH (fst (_track_performance self heap rewards))
                 (snd (_track_performance self heap rewards))) as [-> ->].
    pose proof (track_performance_branches self heap rewards) as Hb.
    cbv zeta in Hb. destruct Hb as (-> & _).
    now rewrite <- app_assoc.
Qed.

(** X12. Over any sequence of batches the best mean reward never falls,
    it is the initial best or the mean of one of the batches, and no batch
    of the sequence has a mean above it. *)
Theorem track_run_best self heap (batches : list (list Q)) :
  let best := best_mean_reward self in
  let best' := best_mean_reward (snd (fst (track_run self heap batches))) in
  (best' = best \/ fgt best' best = true)
  /\ In best' (best :: map np_mean batches)
  /\ Forall (fun mean_reward => fgt mean_reward best' = false)
            (map np_mean batches).
Proof.
  cbv zeta. revert self heap.
  induction batches as [|rewards batches IH]; intros self heap.
  - cbn [track_run fst snd map]. repeat split; [left | left | constructor]; reflexivity.
  - rewrite track_run_cons. cbn [fst snd map].
    set (self1 := fst (_track_performance self heap rewards)).
    set (heap1 := snd (_track_performance self heap rewards)).
    destruct (IH self1 heap1) as (Hmono & Hin & Hall).
    destruct (track_performance_best self heap rewards) as [Hstep Hle].
    fold self1 in Hstep, Hle.
    set (best' := best_mean_reward (snd (fst (track_run self1 heap1 batches)))) in *.
    split; [| split].
    + destruct Hmono as [-> | Hup].
      * destruct Hstep as [-> | [_ Hgt]]; [left; reflexivity | right; exact Hgt].
      * destruct Hstep as [<- | [_ Hgt]]; [right; exact Hup |].
        right. destruct best' as [z| | |],
          (best_mean_reward self1) as [y| | |],
          (best_mean_reward self) as [x| | |];
          cbn [fgt] in *; try reflexivity; try discriminate.
        apply Qltb_lt in Hup, Hgt. apply Qltb_lt. lra.
    + destruct Hin as [Hin | Hin].
      * destruct Hstep as [Hsame | [Hmean _]].
        -- left. congruence.
        -- right. left. congruence.
      * right. right. exact Hin.
    + constructor; [| exact Hall].
      destruct Hmono as [-> | Hup]; [exact Hle |].
      eapply fgt_false_trans; eassumption.
Qed.

(** X13. Tracking never modifies or removes an object of the heap (a
    new best only adds a copy), and it leaves the optimizer binding, the
    environment and the hyperparameters of the learner as they are. *)
Theorem track_run_frame self heap (batches : list (list Q)) :
  let self' := snd (fst (track_run self heap batches)) in
  let heap' := snd (track_run self heap batches) in
  (forall l, l ∈ dom heap -> heap' !! l = heap !! l)
  /\ optimizer self' = optimizer self
  /\ environment self' = environment self
  /\ reversion_threshold self' = reversion_threshold self
  /\ entropy_coefficient self' = entropy_coefficient self
  /\ n_steps_per_trajectory self' = n_steps_per_trajectory self
  /\ n_trajectories_per_batch self' = n_trajectories_per_batch self.
Proof.
  cbv zeta. revert self heap.
  induction batches as [|rewards batches IH]; intros self heap.
  - cbn [track_run fst snd]. repeat split.
  - rewrite track_run_cons. cbn [fst snd].
    set (self1 := fst (_track_performance self heap rewards)).
    set (heap1 := snd (_track_performance self heap rewards)).
    destruct (IH self1 heap1) as (Hheap & -> & -> & -> & -> & -> & ->).
    assert ((forall l, l ∈ dom heap -> heap1 !! l = heap !! l)
            /\ optimizer self1 = optimizer self
            /\ environment self1 = environment self
            /\ reversion_threshold self1 = reversion_threshold self
            /\ entropy_coefficient self1 = entropy_coefficient self
            /\ n_steps_per_trajectory self1 = n_steps_per_trajectory self
            /\ n_trajectories_per_batch self1 = n_trajectories_per_batch self)
      as (Hheap1 & -> & -> & -> & -> & -> & ->).
    { subst self1 heap1. unfold _track_performance.
      destruct (track_branch _ _).
      - pose proof (fun l => deepcopy_old (policy self) l heap) as Hold.
        cbn [set_best_mean_reward set_mean_rewards policy].
        destruct (deepcopy (policy self) heap) as [copy heap1].
        cbn [fst snd] in *. repeat split. exact Hold.
      - repeat split.
      - repeat split. }
    repeat split. intros l Hl. rewrite Hheap; [apply Hheap1; exact Hl |].
    apply elem_of_dom. rewrite Hheap1 by exact Hl. apply elem_of_dom. exact Hl.
Qed.

End TrackerRun.

(** ** The optimizer and the two policies *)

Section OptimizerObjects.

Context {Env Box Params : Type}.
Implicit Type self : @PPOLearner Env Box.
Implicit Type heap : gmap loc Params.

Lemma track_performance_configuration self heap (rewards : list Q) :
  let self' := fst (_track_performance self heap rewards) in
  same_configuration self self'
  /\ environment self' = environment self
  /\ entropy_coefficient self' = entropy_coefficient self.
Proof.
  cbv zeta. unfold _track_performance.
  destruct (track_branch _ _).
  - cbn [set_best_mean_reward set_mean_rewards policy].
    destruct (deepcopy (policy self) heap) as [copy heap1].
    unfold same_configuration. repeat split.
  - unfold same_configuration. repeat split.
  - unfold same_configuration. repeat split.
Qed.

Lemma track_performance_objects self heap (rewards : list Q) :
  snapshot_apart self heap ->
  let self' := fst (_track_performance self heap rewards) in
  let heap' := snd (_track_performance self heap rewards) in
  snapshot_apart self' heap'
  /\ optimizer self' = optimizer self
  /\ (policy self' = policy self \/ policy self' = best_policy self).
Proof.
  intros (Hp & Hb & Ho & Hne). cbv zeta.
  pose proof (track_performance_branches self heap rewards) as Hbr.
  destruct (track_performance_configuration self heap rewards)
    as ((_ & Hopt & _) & _).
  cbv zeta in Hbr, Hopt. destruct Hbr as (_ & _ & Hbr).
  unfold snapshot_apart. rewrite Hopt.
  destruct (fgt (np_mean rewards) (best_mean_reward self)).
  - destruct Hbr as (_ & -> & Hfresh & Hcopy & Hold).
    assert (forall l, l ∈ dom heap ->
              l ∈ dom (snd (_track_performance self heap rewards))) as Hdom.
    { intros l Hl. apply elem_of_dom. rewrite Hold by exact Hl.
      apply elem_of_dom. exact Hl. }
    repeat split; auto.
    + apply elem_of_dom. rewrite Hcopy. apply elem_of_dom. exact Hp.
    + intros Heq. rewrite Heq in Hfresh. contradiction.
  - destruct Hbr as (_ & -> & -> & ->).
    destruct (fgt _ _); repeat split; auto.
Qed.

(** X14. The best-policy snapshot is never the object that the optimizer
    writes: this holds after every batch, whichever branch the tracker
    takes, and is kept by optimizer steps; so a step of the optimizer leaves
    the parameters of the snapshot as they are. *)
Theorem optimizer_step_spares_snapshot self heap (rewards : list Q)
    (update : Params -> Params) :
  snapshot_apart self heap ->
  let self' := fst (_track_performance self heap rewards) in
  let heap' := snd (_track_performance self heap rewards) in
  snapshot_apart self' heap'
  /\ snapshot_apart self' (optimizer_step update self' heap')
  /\ optimizer_step update self' heap' !! best_policy self' =
     heap' !! best_policy self'.
Proof.
  intros Hwf. cbv zeta.
  destruct (track_performance_objects self heap rewards Hwf) as (Hwf' & _ & _).
  cbv zeta in Hwf'. split; [exact Hwf' |].
  destruct Hwf' as (Hp & Hb & Ho & Hne). split.
  - unfold snapshot_apart, optimizer_step. rewrite dom_alter_L.
    repeat split; assumption.
  - unfold optimizer_step. apply lookup_alter_ne. congruence.
Qed.

(** X15. A reversion takes the live policy away from the optimizer, for
    good: once the live policy is not the optimizer's object (which a
    reversion brings about), it is not after any later batch either, and a
    step of the optimizer no longer changes the parameters of the live
    policy. *)
Theorem reversion_detaches_optimizer self heap (rewards : list Q)
    (update : Params -> Params) :
  snapshot_apart self heap ->
  track_branch self (np_mean rewards) = Reverted
    \/ policy self <> optimizer self ->
  let self' := fst (_track_performance self heap rewards) in
  let heap' := snd (_track_performance self heap rewards) in
  policy self' <> optimizer self'
  /\ optimizer_step update self' heap' !! policy self' = heap' !! policy self'.
Proof.
  intros Hwf Hcase. cbv zeta.
  destruct (track_performance_objects self heap rewards Hwf)
    as (_ & Hopt & Hpol).
  cbv zeta in Hopt, Hpol.
  assert (policy (fst (_track_performance self heap rewards)) <>
          optimizer (fst (_track_performance self heap rewards))) as Hne.
  { rewrite Hopt. destruct Hwf as (_ & _ & _ & Hbo).
    destruct Hcase as [Hrev | Hdetached].
    - pose proof (track_reverted_aliases self heap rewards Hrev) as Halias.
      cbv zeta in Halias. rewrite Halias.
      pose proof (track_performance_branches self heap rewards) as Hbr.
      cbv zeta in Hbr. destruct Hbr as (_ & _ & Hbr).
      unfold track_branch in Hrev.
      destruct (fgt (np_mean rewards) (best_mean_reward self)); [discriminate |].
      destruct Hbr as (_ & -> & _). exact Hbo.
    - destruct Hpol as [-> | ->]; assumption. }
  split; [exact Hne |].
  unfold optimizer_step. apply lookup_alter_ne. congruence.
Qed.

End OptimizerObjects.

Lemma toy_snapshot_apart : snapshot_apart (Toy.learner None 128 8) Toy.heap.
Proof.
  unfold snapshot_apart. cbn [Toy.learner policy best_policy optimizer].
  repeat split; try (apply elem_of_dom; eexists; reflexivity). discriminate.
Qed.

Lemma optimizer_step_spares_snapshot_witness :
  let self' := fst (_track_performance (Toy.learner None 128 8) Toy.heap [10]) in
  let heap' := snd (_track_performance (Toy.learner None 128 8) Toy.heap [10]) in
  snapshot_apart self' heap'
  /\ snapshot_apart self' (optimizer_step Z.succ self' heap')
  /\ optimizer_step Z.succ self' heap' !! best_policy self' =
     heap' !! best_policy self'.
Proof.
  apply (optimizer_step_spares_snapshot (Toy.learner None 128 8) Toy.heap [10]
           Z.succ).
  exact toy_snapshot_apart.
Defined.

Lemma reversion_detaches_optimizer_witness :
  let self := set_best_mean_reward (Fin 10) (Toy.learner None 128 8) in
  let self' := fst (_track_performance self Toy.heap [1]) in
  let heap' := snd (_track_performance self Toy.heap [1]) in
  policy self' <> optimizer self'
  /\ optimizer_step Z.succ self' heap' !! policy self' = heap' !! policy self'.
Proof.
  apply (reversion_detaches_optimizer
           (set_best_mean_reward (Fin 10) (Toy.learner None 128 8)) Toy.heap [1]
           Z.succ).
  - exact toy_snapshot_apart.
  - left. vm_compute. reflexivity.
Defined.

(** ** More on the schedule *)

(** X16. From the first call on, [update_hyperparameters] leaves the same
    reversion threshold whatever it was before, namely the larger of the
    squared decay and the floor; it is never below the floor; and the decay
    factors and the floor themselves are never changed. *)
Theorem reversion_threshold_constant {Env Box : Type}
    (self : @PPOLearner Env Box) (N : nat) :
  let self' := Nat.iter (S N) update_hyperparameters self in
  reversion_threshold self' =
    py_max (reversion_threshold_decay self * reversion_threshold_decay self)
           (min_reversion_threshold self)
  /\ min_reversion_threshold self <= reversion_threshold self'
  /\ reversion_threshold_decay self' = reversion_threshold_decay self
  /\ min_reversion_threshold self' = min_reversion_threshold self
  /\ entropy_decay self' = entropy_decay self.
Proof.
  cbv zeta.
  assert (forall M,
            reversion_threshold_decay (Nat.iter M update_hyperparameters self) =
              reversion_threshold_decay self
            /\ min_reversion_threshold (Nat.iter M update_hyperparameters self) =
                 min_reversion_threshold self) as Hconst.
  { induction M as [|M [IHd IHm]]; [split; reflexivity |].
    rewrite Nat.iter_succ. split; [exact IHd | exact IHm]. }
  destruct (Hconst (S N)) as [Hd Hm]. destruct (Hconst N) as [Hd' Hm'].
  rewrite Hd, Hm, iter_update_entropy_decay.
  rewrite Nat.iter_succ, update_hyperparameters_threshold, Hd', Hm'.
  repeat split. unfold py_max.
  destruct (Qltb _ _) eqn:Hlt; [lra |].
  destruct (Qlt_le_dec (reversion_threshold_decay self * reversion_threshold_decay self)
              (min_reversion_threshold self)) as [Hlt' | Hle]; [| exact Hle].
  apply Qltb_lt in Hlt'. congruence.
Qed.

(** ** The training loop *)

(** Reads the attributes of a learner through the assignments made to it. *)
Ltac read_attributes :=
  cbn [set_environment set_policy set_entropy_coefficient
       set_reversion_threshold set_mean_rewards set_best_mean_reward
       set_best_policy update_hyperparameters
       seed environment policy optimizer random_init_box
       n_steps_per_trajectory n_trajectories_per_batch n_epochs n_iterations
       discount clipping_param critic_coefficient entropy_coefficient
       entropy_decay reversion_threshold reversion_threshold_decay
       min_reversion_threshold randomize_init_state mean_rewards
       best_mean_reward best_policy] in *.

Lemma toy_train_returns :
  train (elementary := Toy.elementary) (square_root := toy_square_root)
    toy_trainee Toy.heap 1%Z 0%Z =
  Returns (toy_trained, toy_trained_heap, 17%Z, 2%Z).
Proof. vm_compute. reflexivity. Qed.

Section TrainingLoop.

Context {Env State Action Box Params Rng OptState : Type}.
Context {environment_ops : Environment Env State Action}.
Context {backend : Backend State Action Box Params Rng}.
Context {params_inhabited : Inhabited Params}.
Context {elementary : Elementary}.
Context {square_root : SquareRoot}.
Context {network : Network State Params}.
Context {optimizer_ops : Optimizer Params OptState}.
Implicit Type self : @PPOLearner Env Box.
Implicit Type heap : gmap loc Params.

(** A batch that was generated tells that the learner had its box and a
    batch size of one or more. *)
Lemma generate_batch_Some self heap rng self' rng' batch :
  generate_batch self heap rng = Some (self', rng', batch) ->
  has_box self /\ (1 <= n_trajectories_per_batch self)%Z.
Proof.
  intros Hgen.
  assert (1 <= n_trajectories_per_batch self)%Z as HB.
  { destruct (Z_lt_le_dec (n_trajectories_per_batch self) 1) as [Hlt | Hge];
      [| exact Hge].
    unfold generate_batch in Hgen.
    replace (Z.to_nat (n_trajectories_per_batch self)) with 0%nat in Hgen by lia.
    discriminate. }
  split; [| exact HB].
  intros Hr. destruct (random_init_box self) as [box|] eqn:Hbox; [eauto |].
  exfalso. unfold generate_batch in Hgen.
  replace (Z.to_nat (n_trajectories_per_batch self))
    with (S (Z.to_nat (n_trajectories_per_batch self - 1))) in Hgen by lia.
  cbn [generate_trajectories] in Hgen.
  unfold generate_trajectory in Hgen. rewrite Hr, Hbox in Hgen. discriminate.
Qed.

Lemma epoch_frame self states dr old heap opt heap' opt' :
  epoch self states dr old heap opt = Some (heap', opt') ->
  dom heap' = dom heap
  /\ forall l, l <> policy self -> l <> optimizer self -> heap' !! l = heap !! l.
Proof.
  unfold epoch.
  destruct (forward _ _) as [[probs values]|]; [| discriminate].
  destruct (zip_exact _ _ _) as [adv|]; [| discriminate].
  destruct (ppo_loss _ _ _ _ _ _); [| discriminate].
  set (heap1 := alter zero_grad (optimizer self) heap).
  set (heap2 := alter _ (policy self) heap1).
  assert (dom heap2 = dom heap) as Hdom
    by (subst heap2 heap1; now rewrite !dom_alter_L).
  assert (forall l, l <> policy self -> l <> optimizer self ->
                    heap2 !! l = heap !! l) as Hframe.
  { intros l Hp Ho. subst heap2 heap1. now rewrite !lookup_alter_ne by congruence. }
  destruct (heap2 !! optimizer self) as [p|] eqn:Hopt.
  - destruct (adam_step opt p) as [p' opt1]. intros Heq. injection Heq as <- <-.
    split.
    + rewrite dom_insert_lookup_L by eauto. exact Hdom.
    + intros l Hp Ho. rewrite lookup_insert_ne by congruence. now apply Hframe.
  - intros Heq. injection Heq as <- <-. split; assumption.
Qed.

Lemma update_policy_network_frame self states dr old heap opt heap' opt' :
  update_policy_network self states dr old heap opt = Some (heap', opt') ->
  dom heap' = dom heap
  /\ forall l, l <> policy self -> l <> optimizer self -> heap' !! l = heap !! l.
Proof.
  unfold update_policy_network.
  generalize (Z.to_nat (n_epochs self)) as n. intros n. revert heap opt.
  induction n as [|n IH]; intros heap opt; cbn [epochs].
  - intros Heq. injection Heq as <- <-. split; [reflexivity | auto].
  - destruct (epoch self states dr old heap opt) as [[heap1 opt1]|] eqn:He;
      [| discriminate].
    intros Hrest. destruct (epoch_frame _ _ _ _ _ _ _ _ He) as [Hd1 Hf1].
    destruct (IH _ _ Hrest) as [Hd Hf]. split; [congruence |].
    intros l Hp Ho. rewrite Hf, Hf1 by assumption. reflexivity.
Qed.

Lemma same_configuration_refl self : same_configuration self self.
Proof. unfold same_configuration. repeat split. Qed.

Lemma same_configuration_trans self1 self2 self3 :
  same_configuration self1 self2 -> same_configuration self2 self3 ->
  same_configuration self1 self3.
Proof.
  unfold same_configuration. intros H12 H23.
  decompose [and] H12. decompose [and] H23. repeat split; congruence.
Qed.

(** What one iteration that returns has done to the learner. *)
Lemma train_iteration_returns self heap rng opt self' heap' rng' opt' :
  train_iteration self heap rng opt = Returns (self', heap', rng', opt') ->
  same_configuration self self'
  /\ (exists mean_reward,
        mean_rewards self' = mean_rewards self ++ [mean_reward])
  /\ entropy_coefficient self' = entropy_decay self * entropy_coefficient self
  /\ reversion_threshold self' =
       py_max (reversion_threshold_decay self * reversion_threshold_decay self)
              (min_reversion_threshold self)
  /\ (best_mean_reward self' = best_mean_reward self
      \/ fgt (best_mean_reward self') (best_mean_reward self) = true)
  /\ (EnvironmentLaws Env State Action ->
      init (environment self') = init (environment self))
  /\ (snapshot_apart self heap -> snapshot_apart self' heap').
Proof.
  unfold train_iteration.
  destruct (generate_batch self heap rng)
    as [[[self1 rng1] [[states rewards] dr]]|] eqn:Hgen; [| discriminate].
  destruct (generate_batch_Some _ _ _ _ _ _ Hgen) as [Hbox HB].
  destruct (generate_batch_returns self heap rng Hbox HB)
    as (env1 & rng1' & trajectories & _ & Hbatch & _ & _ & Hinit).
  rewrite Hgen in Hbatch. injection Hbatch as -> _ _ _ _.
  pose proof (track_performance_branches (set_environment env1 self) heap rewards)
    as Hbr.
  pose proof (track_performance_configuration (set_environment env1 self) heap
                rewards) as Hcfg.
  pose proof (track_performance_best (set_environment env1 self) heap rewards)
    as Hbest.
  pose proof (track_performance_objects (set_environment env1 self) heap rewards)
    as Hobj.
  destruct (_track_performance (set_environment env1 self) heap rewards)
    as [self2 heap2].
  cbv zeta in Hbr, Hcfg, Hbest, Hobj. cbn [fst snd] in Hbr, Hcfg, Hbest, Hobj.
  destruct (_get_tensors self2 heap2 states dr) as [[[states' drf] old]|];
    [| discriminate].
  destruct (all_finite drf) as [dr'|]; [| discriminate].
  destruct (update_policy_network self2 states' dr' old heap2 opt)
    as [[heap3 opt3]|] eqn:Hupd; [| discriminate].
  intros Hret. injection Hret as <- <- <- <-.
  destruct (update_policy_network_frame _ _ _ _ _ _ _ _ Hupd) as [Hdom _].
  destruct Hbr as (Hhist & _ & _).
  destruct Hcfg as (Hsame & Henv & Hent).
  destruct Hbest as (Hmono & _).
  unfold same_configuration in Hsame.
  destruct Hsame as (? & ? & ? & ? & ? & ? & ? & ? & ? & ? & ? & ? & ? & ?).
  unfold same_configuration, snapshot_apart in *. read_attributes.
  split; [repeat split; assumption |].
  split; [exists (np_mean rewards); exact Hhist |].
  split; [congruence |].
  split; [congruence |].
  split; [destruct Hmono as [Hm | [_ Hm]]; [left | right]; exact Hm |].
  split.
  - intros laws. rewrite Henv. exact (Hinit laws).
  - intros Hwf. destruct (Hobj Hwf) as ((Hp & Hb & Ho & Hne) & _).
    rewrite Hdom. repeat split; assumption.
Qed.

Lemma fgt_trans (a b c : fval) :
  fgt c b = true -> fgt b a = true -> fgt c a = true.
Proof.
  destruct a as [x| | |], b as [y| | |], c as [z| | |];
    cbn [fgt]; intros Hcb Hba; try reflexivity; try discriminate.
  apply Qltb_lt in Hcb, Hba. apply Qltb_lt. lra.
Qed.

(** What [n] iterations that return have done to the learner. *)
Lemma iterations_return (n : nat) self heap rng opt self' heap' rng' opt' :
  iterations n self heap rng opt = Returns (self', heap', rng', opt') ->
  same_configuration self self'
  /\ (exists new_means,
        mean_rewards self' = mean_rewards self ++ new_means
        /\ length new_means = n)
  /\ entropy_coefficient self' ==
       entropy_coefficient self * entropy_decay self ^ Z.of_nat n
  /\ ((0 < n)%nat ->
      reversion_threshold self' =
        py_max (reversion_threshold_decay self * reversion_threshold_decay self)
               (min_reversion_threshold self))
  /\ (best_mean_reward self' = best_mean_reward self
      \/ fgt (best_mean_reward self') (best_mean_reward self) = true)
  /\ (EnvironmentLaws Env State Action ->
      init (environment self') = init (environment self))
  /\ (snapshot_apart self heap -> snapshot_apart self' heap').
Proof.
  revert self heap rng opt.
  induction n as [|n IH]; intros self heap rng opt; cbn [iterations].
  - intros Hret. injection Hret as <- <- <- <-.
    split; [apply same_configuration_refl |].
    split; [exists []; split; [now rewrite app_nil_r | reflexivity] |].
    split; [simpl; ring |]. split; [lia |]. split; [left; reflexivity |].
    split; auto.
  - destruct (train_iteration self heap rng opt)
      as [[[[self1 heap1] rng1] opt1]| |] eqn:Hone; try discriminate.
    intros Hrest.
    destruct (train_iteration_returns _ _ _ _ _ _ _ _ Hone)
      as (Hcfg1 & (m & Hm) & Hent1 & Hthr1 & Hbest1 & Hinit1 & Hwf1).
    destruct (IH _ _ _ _ Hrest)
      as (Hcfg & (new_means & Hnew & Hlen) & Hent & Hthr & Hbest & Hinit & Hwf).
    pose proof Hcfg1 as Hfields. unfold same_configuration in Hfields.
    destruct Hfields as (_ & _ & _ & _ & _ & _ & _ & _ & _ & _ & _ & Hd & Hrd & Hmin).
    split; [eapply same_configuration_trans; eassumption |].
    split.
    { exists (m :: new_means). rewrite Hnew, Hm, <- app_assoc.
      split; [reflexivity | cbn [length]; lia]. }
    split.
    { rewrite Hent, Hent1, Hd, Nat2Z.inj_succ, <- Z.add_1_r.
      rewrite Qpower_plus' by lia. rewrite Qpower_1_r. ring. }
    split.
    { intros _. destruct n as [|n].
      - cbn [iterations] in Hrest. injection Hrest as <- _ _ _. exact Hthr1.
      - rewrite Hthr by lia. now rewrite Hrd, Hmin. }
    split.
    { destruct Hbest as [-> | Hup]; [exact Hbest1 |].
      destruct Hbest1 as [<- | Hup1]; [right; exact Hup |].
      right. eapply fgt_trans; eassumption. }
    split; [intros laws; rewrite Hinit, Hinit1 by exact laws; reflexivity |].
    auto.
Qed.

(** X17. A call of [train] that returns has added exactly
    [n_iterations] entries to the history of mean rewards, behind the ones
    that were there; with [n_iterations <= 0] it returns at once with
    nothing changed. *)
Theorem train_history self heap rng opt self' heap' rng' opt' :
  train self heap rng opt = Returns (self', heap', rng', opt') ->
  (exists new_means,
     mean_rewards self' = mean_rewards self ++ new_means
     /\ length new_means = Z.to_nat (n_iterations self))
  /\ ((n_iterations self <= 0)%Z ->
      self' = self /\ heap' = heap /\ rng' = rng /\ opt' = opt).
Proof.
  unfold train. intros Hret.
  destruct (iterations_return _ _ _ _ _ _ _ _ _ Hret) as (_ & Hhist & _).
  split; [exact Hhist |]. intros Hn.
  replace (Z.to_nat (n_iterations self)) with 0%nat in Hret by lia.
  cbn [iterations] in Hret. injection Hret as <- <- <- <-. repeat split.
Qed.


(** X19. A call of [train] that returns has changed none of the
    attributes set at construction (sizes, coefficients other than the
    entropy one, decay factors, box, optimizer binding), and under a lawful
    environment the environment's [init] is the one from before the call. *)
Theorem train_keeps_configuration (laws : EnvironmentLaws Env State Action)
    self heap rng opt self' heap' rng' opt' :
  train self heap rng opt = Returns (self', heap', rng', opt') ->
  same_configuration self self'
  /\ init (environment self') = init (environment self).
Proof.
  unfold train. intros Hret.
  destruct (iterations_return _ _ _ _ _ _ _ _ _ Hret)
    as (Hcfg & _ & _ & _ & _ & Hinit & _).
  split; [exact Hcfg | exact (Hinit laws)].
Qed.

(** X20. Over a call of [train] that returns, the best mean reward never
    falls, and the best-policy snapshot stays an object other than the one
    the optimizer writes, when it was one at the start (as it is after
    construction). *)
Theorem train_keeps_snapshot_apart self heap rng opt self' heap' rng' opt' :
  train self heap rng opt = Returns (self', heap', rng', opt') ->
  snapshot_apart self heap ->
  snapshot_apart self' heap'
  /\ (best_mean_reward self' = best_mean_reward self
      \/ fgt (best_mean_reward self') (best_mean_reward self) = true).
Proof.
  unfold train. intros Hret Hwf.
  destruct (iterations_return _ _ _ _ _ _ _ _ _ Hret)
    as (_ & _ & _ & _ & Hbest & _ & Hwf').
  split; [exact (Hwf' Hwf) | exact Hbest].
Qed.

(** X21. With one iteration or more to run and a batch size below one,
    [train] raises in its first iteration, before any tracking or
    optimisation. *)
Theorem train_raises_without_batch self heap rng opt :
  (1 <= n_iterations self)%Z ->
  (n_trajectories_per_batch self < 1)%Z ->
  train self heap rng opt = Raises.
Proof.
  intros Hn HB. unfold train.
  replace (Z.to_nat (n_iterations self))
    with (S (Z.to_nat (n_iterations self - 1))) by lia.
  cbn [iterations]. unfold train_iteration, generate_batch.
  replace (Z.to_nat (n_trajectories_per_batch self)) with 0%nat by lia.
  reflexivity.
Qed.

End TrainingLoop.

Lemma toy_trainee_snapshot_apart : snapshot_apart toy_trainee Toy.heap.
Proof.
  unfold snapshot_apart. cbn [toy_trainee policy best_policy optimizer].
  repeat split; try (apply elem_of_dom; eexists; reflexivity). discriminate.
Qed.

Lemma train_history_witness :
  (exists new_means,
     mean_rewards toy_trained = [] ++ new_means /\ length new_means = 2%nat)
  /\ ((2 <= 0)%Z ->
      toy_trained = toy_trainee /\ toy_trained_heap = Toy.heap
      /\ 17%Z = 1%Z /\ 2%Z = 0%Z).
Proof.
  apply (train_history (elementary := Toy.elementary)
           (square_root := toy_square_root)
           toy_trainee Toy.heap 1%Z 0%Z toy_trained toy_trained_heap 17%Z 2%Z).
  exact toy_train_returns.
Defined.


Lemma train_keeps_configuration_witness :
  same_configuration toy_trainee toy_trained
  /\ init (environment toy_trained) = 0%Z.
Proof.
  apply (train_keeps_configuration (elementary := Toy.elementary)
           (square_root := toy_square_root) toy_environment_laws
           toy_trainee Toy.heap 1%Z 0%Z toy_trained toy_trained_heap 17%Z 2%Z).
  exact toy_train_returns.
Defined.

Lemma train_keeps_snapshot_apart_witness :
  snapshot_apart toy_trained toy_trained_heap
  /\ (best_mean_reward toy_trained = NegInf
      \/ fgt (best_mean_reward toy_trained) NegInf = true).
Proof.
  apply (train_keeps_snapshot_apart (elementary := Toy.elementary)
           (square_root := toy_square_root)
           toy_trainee Toy.heap 1%Z 0%Z toy_trained toy_trained_heap 17%Z 2%Z).
  - exact toy_train_returns.
  - exact toy_trainee_snapshot_apart.
Defined.

Lemma train_raises_without_batch_witness :
  train (elementary := Toy.elementary) (square_root := toy_square_root)
    (Toy.learner None 2 0) Toy.heap 1%Z 0%Z = Raises.
Proof.
  apply (train_raises_without_batch (elementary := Toy.elementary)
           (square_root := toy_square_root) (Toy.learner None 2 0) Toy.heap
           1%Z 0%Z).
  - simpl. lia.
  - simpl. lia.
Defined.

(** ** Shapes and bounds of the loss *)

Lemma zip_exact_spec {A B C} (f : A -> B -> C) (l1 : list A) (l2 : list B) :
  zip_exact f l1 l2 =
  if (length l1 =? length l2)%nat
  then Some (map (fun p => f (fst p) (snd p)) (combine l1 l2))
  else None.
Proof.
  revert l2. induction l1 as [|x l1 IH]; intros [|y l2]; try reflexivity.
  cbn [zip_exact length combine map Nat.eqb fst snd]. rewrite IH.
  destruct (length l1 =? length l2)%nat; reflexivity.
Qed.

Lemma zip_exact_length {A B C} (f : A -> B -> C) l1 l2 r :
  zip_exact f l1 l2 = Some r -> length l1 = length l2 /\ length r = length l1.
Proof.
  rewrite zip_exact_spec. destruct (length l1 =? length l2)%nat eqn:Hlen;
    [| discriminate].
  apply Nat.eqb_eq in Hlen. intros Hr. injection Hr as <-.
  rewrite length_map, length_combine. lia.
Qed.

Lemma zip_exact_same_length {A B C} (f : A -> B -> C) l1 l2 :
  length l1 = length l2 -> exists r, zip_exact f l1 l2 = Some r.
Proof.
  intros Hlen. rewrite zip_exact_spec.
  apply Nat.eqb_eq in Hlen. rewrite Hlen. eauto.
Qed.

Lemma zip_exact2_cons (f : Q -> Q -> Q) x t1 y t2 :
  zip_exact2 f (x :: t1) (y :: t2) =
  match zip_exact f x y, zip_exact2 f t1 t2 with
  | Some row, Some rest => Some (row :: rest)
  | _, _ => None
  end.
Proof.
  unfold zip_exact2. cbn [zip_exact].
  destruct (zip_exact (zip_exact f) t1 t2) as [rows|]; cbn.
  - destruct (zip_exact f x y); cbn; [| reflexivity].
    destruct (mapM id rows); reflexivity.
  - destruct (zip_exact f x y); reflexivity.
Qed.

Lemma Qsum_app (l1 l2 : list Q) : Qsum (l1 ++ l2) == Qsum l1 + Qsum l2.
Proof.
  induction l1 as [|x l1 IH]; cbn [app Qsum]; [ring |]. rewrite IH. ring.
Qed.

Lemma zip_exact_Qmin_le (x y row : list Q) :
  zip_exact Qmin x y = Some row ->
  length row = length y /\ Qsum row <= Qsum y.
Proof.
  revert y row. induction x as [|a x IH]; intros [|b y] row; cbn [zip_exact];
    try discriminate.
  - intros Hr. injection Hr as <-. split; [reflexivity | apply Qle_refl].
  - destruct (zip_exact Qmin x y) as [r|] eqn:Hr; [| discriminate].
    intros Hrow. injection Hrow as <-. destruct (IH _ _ Hr) as [Hlen Hle].
    cbn [length Qsum]. split; [lia |].
    pose proof (Q.le_min_r a b). lra.
Qed.

Lemma zip_exact2_Qmin_le (c u least : list (list Q)) :
  zip_exact2 Qmin c u = Some least ->
  length (concat least) = length (concat u)
  /\ Qsum (concat least) <= Qsum (concat u).
Proof.
  revert u least. induction c as [|x c IH]; intros [|y u] least.
  - intros Hl. injection Hl as <-. split; [reflexivity | apply Qle_refl].
  - discriminate.
  - discriminate.
  - rewrite zip_exact2_cons.
    destruct (zip_exact Qmin x y) as [row|] eqn:Hrow; [| discriminate].
    destruct (zip_exact2 Qmin c u) as [rest|] eqn:Hrest; [| discriminate].
    intros Hl. injection Hl as <-.
    destruct (zip_exact_Qmin_le _ _ _ Hrow) as [Hlen1 Hle1].
    destruct (IH _ _ Hrest) as [Hlen2 Hle2].
    cbn [concat]. rewrite !length_app, !Qsum_app. split; [lia | lra].
Qed.

Lemma Qsum_squares_nonneg (l : list Q) :
  Forall (fun x => 0 <= x) l -> 0 <= Qsum l.
Proof.
  induction 1 as [|x l Hx _ IH]; cbn [Qsum]; [apply Qle_refl | lra].
Qed.

Lemma inject_length_pos {A} (x : A) (l : list A) :
  0 < inject_Z (Z.of_nat (length (x :: l))).
Proof.
  change 0 with (inject_Z 0). rewrite <- Zlt_Qlt. cbn [length]. lia.
Qed.

Lemma np_mean_nonneg (l : list Q) (c : Q) :
  Forall (fun x => 0 <= x) l -> np_mean l = Fin c -> 0 <= c.
Proof.
  intros Hall. destruct l as [|x l]; [discriminate |].
  unfold np_mean. intros Hc. injection Hc as <-.
  apply Qle_shift_div_l; [apply (inject_length_pos x l) |].
  rewrite Qmult_0_l. exact (Qsum_squares_nonneg (x :: l) Hall).
Qed.


Section ActorLoss.

Context {Env Box : Type}.
Context {elementary : Elementary}.
Implicit Type self : @PPOLearner Env Box.

(** X23. The clipped actor loss is never below the unclipped surrogate:
    whenever the actor loss is a finite [a], the loss without the clamp is a
    finite [u] over the same probabilities and advantages, and [u <= a]. *)
Theorem actor_loss_pessimistic self
    (policy_probabilities old_policy_probabilities : list (list Q))
    (advantage_estimates : list Q) (a : Q) :
  actor_loss self policy_probabilities old_policy_probabilities
    advantage_estimates = Some (Fin a) ->
  exists u : Q,
    unclipped_loss policy_probabilities old_policy_probabilities
      advantage_estimates = Some (Fin u)
    /\ u <= a.
Proof.
  unfold actor_loss, unclipped_loss.
  destruct (zip_exact2 _ policy_probabilities old_policy_probabilities)
    as [ratio|]; [| cbn; discriminate]. cbn [mbind option_bind].
  destruct (zip_column (fun r a0 => clamp r _ _ * a0) ratio advantage_estimates)
    as [clipped|]; [| cbn; discriminate]. cbn [mbind option_bind].
  destruct (zip_column (fun r a => r * a) ratio advantage_estimates)
    as [unclipped|]; [| cbn; discriminate]. cbn [mbind option_bind].
  destruct (zip_exact2 Qmin clipped unclipped) as [least|] eqn:Hleast;
    [| cbn; discriminate]. cbn [mbind option_bind].
  destruct (zip_exact2_Qmin_le _ _ _ Hleast) as [Hlen Hle].
  intros Ha. injection Ha as Ha.
  destruct (concat least) as [|x l] eqn:Hl; [discriminate |].
  destruct (concat unclipped) as [|y l'] eqn:Hu; [discriminate |].
  cbn [np_mean fneg] in *. injection Ha as <-.
  eexists. split; [reflexivity |].
  change (x + Qsum l) with (Qsum (x :: l)).
  change (S (length l)) with (length (x :: l)). rewrite Hlen.
  pose proof (inject_length_pos y l') as Hpos.
  set (n := inject_Z (Z.of_nat (length (y :: l')))) in *.
  apply Qopp_le_compat. apply Qmult_le_compat_r; [exact Hle |].
  apply Qlt_le_weak. apply Qinv_lt_0_compat. exact Hpos.
Qed.

End ActorLoss.

Lemma actor_loss_pessimistic_witness :
  exists u : Q,
    unclipped_loss (elementary := Toy.elementary)
      [[1 # 2; 1 # 2]; [1 # 4; 3 # 4]] [[1 # 2; 1 # 2]; [1 # 2; 1 # 2]]
      [1; - (1)] = Some (Fin u)
    /\ u <= 192000000000000000000000000000000000000000000000000000000000000
            # 5120000000000000000000000000000000000000000000000000000000000000.
Proof.
  apply (actor_loss_pessimistic (elementary := Toy.elementary)
           (Toy.learner None 2 3)
           [[1 # 2; 1 # 2]; [1 # 4; 3 # 4]] [[1 # 2; 1 # 2]; [1 # 2; 1 # 2]]
           [1; - (1)]).
  vm_compute. reflexivity.
Defined.

(** ** The tensors of an iteration *)

Lemma Qsum_map_affine (l : list Q) (m d : Q) :
  Qsum (map (fun g => (g - m) / d) l) ==
  (Qsum l - inject_Z (Z.of_nat (length l)) * m) / d.
Proof.
  induction l as [|g l IH].
  - cbn. unfold Qdiv. ring.
  - cbn [map Qsum length]. rewrite IH, Nat2Z.inj_succ, <- Z.add_1_r, inject_Z_plus.
    unfold Qdiv. change (inject_Z 1) with 1. ring.
Qed.

Lemma all_finite_map_Fin (f : Q -> Q) (l : list Q) :
  all_finite (map (fun g => Fin (f g)) l) = Some (map f l).
Proof.
  induction l as [|g l IH]; [reflexivity |].
  cbn [map all_finite]. now rewrite IH.
Qed.

Section Normalisation.

Context {square_root : SquareRoot}.

(** The normalisation of [_get_tensors] on at least two values, when the
    standard deviation plus [TOL] is not zero. *)
Lemma normalise_finite (discounted_rewards : list Q) :
  (2 <= length discounted_rewards)%nat ->
  (forall s, torch_std discounted_rewards = Fin s -> ~ s + TOL == 0) ->
  exists normalised,
    all_finite
      (map (fun g => fdiv (fsub (Fin g) (np_mean discounted_rewards))
                          (fadd (torch_std discounted_rewards) (Fin TOL)))
           discounted_rewards) = Some normalised
    /\ length normalised = length discounted_rewards
    /\ Qsum normalised == 0.
Proof.
  intros Hlen Hstd.
  destruct discounted_rewards as [|a [|b rest]]; cbn [length] in Hlen; try lia.
  set (l := a :: b :: rest) in *.
  set (n := inject_Z (Z.of_nat (length l))).
  assert (np_mean l = Fin (Qsum l / n)) as Hmean by reflexivity.
  destruct (torch_std l) as [s| | |] eqn:Hs; try discriminate.
  specialize (Hstd s eq_refl).
  rewrite Hmean. cbn [fadd].
  assert (forall g, fdiv (fsub (Fin g) (Fin (Qsum l / n))) (Fin (s + TOL)) =
                    Fin ((g - Qsum l / n) / (s + TOL))) as Helem.
  { intros g. cbn [fsub fdiv].
    destruct (Qeq_bool (s + TOL) 0) eqn:Hz; [| reflexivity].
    apply Qeq_bool_iff in Hz. contradiction. }
  rewrite (map_ext _ _ Helem), all_finite_map_Fin.
  eexists. split; [reflexivity |]. split; [apply length_map |].
  rewrite Qsum_map_affine. fold n.
  assert (~ n == 0) as Hn.
  { subst n l. intros Hz. unfold Qeq in Hz. cbn in Hz. lia. }
  field. split; assumption.
Qed.

Context {State Params : Type} {Env Box : Type}.
Context {params_inhabited : Inhabited Params}.
Context {network : Network State Params}.


End Normalisation.


(** ** What the epochs write *)

Section PolicyUpdates.

Context {Env State Box Params OptState : Type}.
Context {params_inhabited : Inhabited Params}.
Context {elementary : Elementary}.
Context {network : Network State Params}.
Context {optimizer_ops : Optimizer Params OptState}.
Implicit Type self : @PPOLearner Env Box.
Implicit Type heap : gmap loc Params.

(** X25. [update_policy_network] writes to two objects at most, the live
    policy (gradients) and the one registered with the optimizer; it
    creates and removes none; and with [n_epochs <= 0] it does nothing. *)
Theorem update_policy_network_writes self (states : list State)
    (discounted_rewards : list Q) (old_policy_probabilities : list (list Q))
    heap (opt : OptState) heap' (opt' : OptState) :
  update_policy_network self states discounted_rewards old_policy_probabilities
    heap opt = Some (heap', opt') ->
  dom heap' = dom heap
  /\ (forall l, l <> policy self -> l <> optimizer self ->
                heap' !! l = heap !! l)
  /\ ((n_epochs self <= 0)%Z -> heap' = heap /\ opt' = opt).
Proof.
  intros Hupd.
  destruct (update_policy_network_frame _ _ _ _ _ _ _ _ Hupd) as [Hdom Hframe].
  split; [exact Hdom |]. split; [exact Hframe |].
  intros Hn. unfold update_policy_network in Hupd.
  replace (Z.to_nat (n_epochs self)) with 0%nat in Hupd by lia.
  cbn [epochs] in Hupd. injection Hupd as <- <-. split; reflexivity.
Qed.

Lemma epoch_detached {W : Type} (weights : Params -> W) self states dr old
    heap opt heap' opt' :
  (forall loss p, weights (backward loss p) = weights p) ->
  policy self <> optimizer self ->
  epoch self states dr old heap opt = Some (heap', opt') ->
  weights <$> heap' !! policy self = weights <$> heap !! policy self.
Proof.
  intros Hlaw Hne. unfold epoch.
  destruct (forward _ _) as [[probs values]|]; [| discriminate].
  destruct (zip_exact _ _ _) as [adv|]; [| discriminate].
  destruct (ppo_loss _ _ _ _ _ _); [| discriminate].
  set (heap1 := alter zero_grad (optimizer self) heap).
  set (heap2 := alter _ (policy self) heap1).
  assert (weights <$> heap2 !! policy self = weights <$> heap !! policy self)
    as Hkept.
  { subst heap2 heap1. rewrite lookup_alter_eq, lookup_alter_ne by congruence.
    destruct (heap !! policy self) as [p|]; [| reflexivity].
    cbn. now rewrite Hlaw. }
  destruct (heap2 !! optimizer self) as [p|].
  - destruct (adam_step opt p) as [p' opt1]. intros Heq. injection Heq as <- <-.
    rewrite lookup_insert_ne by congruence. exact Hkept.
  - intros Heq. injection Heq as <- <-. exact Hkept.
Qed.

(** X26. When the live policy is not the object registered with the
    optimizer (as after a reversion) and [backward] only fills gradients,
    [update_policy_network] leaves the weights of the live policy as they
    were: the epochs no longer train it. *)
Theorem update_policy_network_detached {W : Type} (weights : Params -> W)
    self (states : list State) (discounted_rewards : list Q)
    (old_policy_probabilities : list (list Q))
    heap (opt : OptState) heap' (opt' : OptState) :
  (forall loss p, weights (backward loss p) = weights p) ->
  policy self <> optimizer self ->
  update_policy_network self states discounted_rewards old_policy_probabilities
    heap opt = Some (heap', opt') ->
  weights <$> heap' !! policy self = weights <$> heap !! policy self.
Proof.
  intros Hlaw Hne. unfold update_policy_network.
  generalize (Z.to_nat (n_epochs self)) as n. intros n. revert heap opt.
  induction n as [|n IH]; intros heap opt; cbn [epochs].
  - intros Heq. injection Heq as <- <-. reflexivity.
  - destruct (epoch self states discounted_rewards old_policy_probabilities
                heap opt) as [[heap1 opt1]|] eqn:He; [| discriminate].
    intros Hrest. rewrite (IH _ _ Hrest).
    exact (epoch_detached weights _ _ _ _ _ _ _ _ Hlaw Hne He).
Qed.

End PolicyUpdates.

Lemma toy_update_returns :
  update_policy_network (elementary := Toy.elementary)
    (set_policy 2%positive toy_trainee) [4%Z; 6%Z] [1; - (1)]
    [[1 # 4; 1 # 2; 1 # 4]; [1 # 4; 1 # 2; 1 # 4]] Toy.heap 0%Z =
  Some (<[1%positive := 10%Z]> Toy.heap, 1%Z).
Proof. vm_compute. reflexivity. Qed.

Lemma update_policy_network_writes_witness :
  dom (<[1%positive := 10%Z]> Toy.heap) = dom Toy.heap
  /\ (forall l, l <> 2%positive -> l <> 1%positive ->
                <[1%positive := 10%Z]> Toy.heap !! l = Toy.heap !! l)
  /\ ((1 <= 0)%Z -> <[1%positive := 10%Z]> Toy.heap = Toy.heap /\ 1%Z = 0%Z).
Proof.
  apply (update_policy_network_writes (elementary := Toy.elementary)
           (set_policy 2%positive toy_trainee) [4%Z; 6%Z] [1; - (1)]
           [[1 # 4; 1 # 2; 1 # 4]; [1 # 4; 1 # 2; 1 # 4]] Toy.heap 0%Z
           (<[1%positive := 10%Z]> Toy.heap) 1%Z).
  exact toy_update_returns.
Defined.

Lemma update_policy_network_detached_witness :
  id <$> <[1%positive := 10%Z]> Toy.heap !! 2%positive =
  id <$> Toy.heap !! 2%positive.
Proof.
  apply (update_policy_network_detached (elementary := Toy.elementary) id
           (set_policy 2%positive toy_trainee) [4%Z; 6%Z] [1; - (1)]
           [[1 # 4; 1 # 2; 1 # 4]; [1 # 4; 1 # 2; 1 # 4]] Toy.heap 0%Z
           (<[1%positive := 10%Z]> Toy.heap) 1%Z).
  - reflexivity.
  - discriminate.
  - exact toy_update_returns.
Defined.

(** ** When an iteration returns *)

Lemma zip_exact2_shape (f : Q -> Q -> Q) (A : nat) (t1 t2 : list (list Q)) :
  Forall (fun row => length row = A) t1 ->
  Forall (fun row => length row = A) t2 ->
  length t1 = length t2 ->
  exists r,
    zip_exact2 f t1 t2 = Some r
    /\ length r = length t1
    /\ Forall (fun row => length row = A) r.
Proof.
  intros H1. revert t2. induction H1 as [|x t1 Hx _ IH]; intros t2 H2 Hlen.
  - destruct t2; [| discriminate]. exists []. repeat split. constructor.
  - destruct H2 as [|y t2 Hy H2]; [discriminate |].
    cbn [length] in Hlen. injection Hlen as Hlen.
    destruct (IH t2 H2 Hlen) as (rest & Hrest & Hn & Hall).
    destruct (zip_exact_same_length f x y) as [row Hrow]; [congruence |].
    exists (row :: rest). rewrite zip_exact2_cons, Hrow, Hrest.
    split; [reflexivity |]. split; [cbn [length]; lia |].
    constructor; [| exact Hall].
    destruct (zip_exact_length _ _ _ _ Hrow) as [_ ->]. exact Hx.
Qed.

Lemma zip_column_shape (f : Q -> Q -> Q) (A : nat) (t : list (list Q))
    (column : list Q) :
  Forall (fun row => length row = A) t ->
  length t = length column ->
  exists r,
    zip_column f t column = Some r
    /\ length r = length t
    /\ Forall (fun row => length row = A) r.
Proof.
  intros Hall Hlen. unfold zip_column. rewrite zip_exact_spec.
  apply Nat.eqb_eq in Hlen. rewrite Hlen. apply Nat.eqb_eq in Hlen.
  eexists. split; [reflexivity |]. split.
  - rewrite length_map, length_combine. lia.
  - apply List.Forall_forall. intros row Hrow. apply in_map_iff in Hrow.
    destruct Hrow as ((row0 & a) & <- & Hin). cbn [fst snd].
    rewrite length_map. apply in_combine_l in Hin.
    rewrite List.Forall_forall in Hall. now apply Hall.
Qed.

Section IterationReturns.

Context {Env State Action Box Params Rng OptState : Type}.
Context {environment_ops : Environment Env State Action}.
Context {backend : Backend State Action Box Params Rng}.
Context {params_inhabited : Inhabited Params}.
Context {elementary : Elementary}.
Context {square_root : SquareRoot}.
Context {network : Network State Params}.
Context {optimizer_ops : Optimizer Params OptState}.
Implicit Type self : @PPOLearner Env Box.
Implicit Type heap : gmap loc Params.

Lemma ppo_loss_shapes self (A : nat) (values dr adv : list Q)
    (probs old : list (list Q)) :
  Forall (fun row => length row = A) probs ->
  Forall (fun row => length row = A) old ->
  length probs = length old ->
  length probs = length adv ->
  length dr = length values ->
  exists loss, ppo_loss self values dr probs old adv = Some loss.
Proof.
  intros Hp Ho Hpo Hpa Hdv. unfold ppo_loss, actor_loss, critic_loss.
  destruct (zip_exact2_shape
              (fun p p_old => torch_exp (torch_log (p + TOL) - torch_log (p_old + TOL)))
              A probs old Hp Ho Hpo) as (ratio & -> & Hrn & Hra).
  cbn [mbind option_bind].
  destruct (zip_column_shape
              (fun r a => clamp r (1 - clipping_param self) (1 + clipping_param self) * a)
              A ratio adv Hra) as (clipped & -> & Hcn & Hca); [lia |].
  cbn [mbind option_bind].
  destruct (zip_column_shape (fun r a => r * a) A ratio adv Hra)
    as (unclipped & -> & Hun & Hua); [lia |].
  cbn [mbind option_bind].
  destruct (zip_exact2_shape Qmin A clipped unclipped Hca Hua)
    as (least & -> & _ & _); [lia |].
  cbn [mbind option_bind].
  destruct (zip_exact_same_length (fun g v => (g - v) ^ 2) dr values Hdv)
    as [squares ->].
  cbn [mbind option_bind]. eauto.
Qed.

Lemma epoch_returns_shaped (A : nat) self (states : list State) (dr : list Q)
    (old : list (list Q)) heap (opt : OptState) :
  network_shapes A ->
  states <> [] ->
  length dr = length states ->
  length old = length states ->
  Forall (fun row => length row = A) old ->
  exists heap' opt', epoch self states dr old heap opt = Some (heap', opt').
Proof.
  intros Hnet Hs Hdr Hold Hrows. unfold epoch, forward.
  destruct (Hnet (heap !!! policy self) states Hs)
    as (probs & values & -> & -> & Hpn & Hpa & Hvn).
  cbn [mbind option_bind].
  destruct (zip_exact_same_length Qminus dr values) as [adv Hadv]; [lia |].
  rewrite Hadv. destruct (zip_exact_length _ _ _ _ Hadv) as [_ Han].
  destruct (ppo_loss_shapes self A values dr adv probs old) as [loss ->];
    try assumption; try lia.
  destruct (_ !! optimizer self) as [p|]; [| eauto].
  destruct (adam_step opt p) as [p' opt']. eauto.
Qed.

Lemma update_policy_network_returns_shaped (A : nat) self
    (states : list State) (dr : list Q) (old : list (list Q)) heap
    (opt : OptState) :
  network_shapes A ->
  states <> [] ->
  length dr = length states ->
  length old = length states ->
  Forall (fun row => length row = A) old ->
  exists heap' opt',
    update_policy_network self states dr old heap opt = Some (heap', opt').
Proof.
  intros Hnet Hs Hdr Hold Hrows. unfold update_policy_network.
  generalize (Z.to_nat (n_epochs self)) as n. intros n. revert heap opt.
  induction n as [|n IH]; intros heap opt; cbn [epochs]; [eauto |].
  destruct (epoch_returns_shaped A self states dr old heap opt)
    as (heap1 & opt1 & ->); try assumption.
  apply IH.
Qed.

Lemma torch_std_variance (l : list Q) (s : Q) :
  torch_std l = Fin s -> exists v, 0 <= v /\ s = torch_sqrt v.
Proof.
  destruct l as [|a [|b rest]]; try discriminate.
  unfold torch_std. intros Hs. injection Hs as <-.
  eexists. split; [| reflexivity].
  apply Qle_shift_div_l.
  - assert (1 < inject_Z (Z.of_nat (S (S (length rest))))) as Hn.
    { change 1 with (inject_Z 1). rewrite <- Zlt_Qlt. lia. }
    lra.
  - rewrite Qmult_0_l.
    match goal with
    | |- 0 <= ?sum =>
        change sum with
          (Qsum (map (fun x => (x - Qsum (a :: b :: rest)
                                    / inject_Z (Z.of_nat (length (a :: b :: rest)))) ^ 2)
                     (a :: b :: rest)))
    end.
    apply Qsum_squares_nonneg.
    apply List.Forall_forall. intros x Hx. apply in_map_iff in Hx.
    destruct Hx as (g & <- & _). apply Qsqr_nonneg.
Qed.

Lemma train_iteration_total (A : nat) self heap rng (opt : OptState) :
  has_box self ->
  (1 <= n_trajectories_per_batch self)%Z ->
  (1 <= n_steps_per_trajectory self)%Z ->
  (2 <= n_trajectories_per_batch self * n_steps_per_trajectory self)%Z ->
  network_shapes A ->
  sqrt_safe ->
  exists self' heap' rng' opt',
    train_iteration self heap rng opt = Returns (self', heap', rng', opt').
Proof.
  intros Hbox HB HH HN Hnet Hsqrt. unfold train_iteration.
  destruct (generate_batch_returns self heap rng Hbox HB)
    as (env1 & rng1 & trajectories & _ & -> & Hn & Hall & _).
  set (h := Z.to_nat (n_steps_per_trajectory self)).
  assert (Forall (fun l => length l = h)
            (map (fun tr => fst (fst tr)) trajectories)) as Hstates.
  { apply (Forall_map_length (shaped self)); [| exact Hall].
    intros tr (Hs & _ & _). rewrite Hs. subst h. lia. }
  assert (Forall (fun l => length l = h)
            (map (fun tr => snd tr) trajectories)) as Hdr.
  { apply (Forall_map_length (shaped self)); [| exact Hall].
    intros tr (_ & _ & Hd). exact Hd. }
  pose proof (concat_uniform_length _ h Hstates) as Hsn.
  pose proof (concat_uniform_length _ h Hdr) as Hdn.
  rewrite length_map, Hn in Hsn, Hdn.
  set (states := concat (map (fun tr => fst (fst tr)) trajectories)) in *.
  set (dr := concat (map (fun tr => snd tr) trajectories)) in *.
  assert (2 <= length states)%nat as Hlen by (subst h; nia).
  assert (states <> []) as Hne by (intros Heq; rewrite Heq in Hlen; cbn in Hlen; lia).
  pose proof (track_performance_branches (set_environment env1 self) heap
                (concat (map (fun tr => snd (fst tr)) trajectories))) as _.
  destruct (_track_performance (set_environment env1 self) heap _)
    as [self2 heap2].
  unfold _get_tensors.
  destruct (Hnet (heap2 !!! policy self2) states Hne)
    as (old & values & -> & _ & Hon & Hoa & _).
  cbn [mbind option_bind].
  destruct (normalise_finite dr) as (finite & -> & Hfn & _).
  { lia. }
  { intros s Hs. destruct (torch_std_variance _ _ Hs) as (v & Hv & ->).
    now apply Hsqrt. }
  destruct (update_policy_network_returns_shaped A self2 states finite old
              heap2 opt) as (heap3 & opt3 & ->); try assumption; try lia.
  eauto.
Qed.


Lemma iterations_total (A : nat) (n : nat) self heap rng (opt : OptState) :
  has_box self ->
  (1 <= n_trajectories_per_batch self)%Z ->
  (1 <= n_steps_per_trajectory self)%Z ->
  (2 <= n_trajectories_per_batch self * n_steps_per_trajectory self)%Z ->
  network_shapes A ->
  sqrt_safe ->
  exists self' heap' rng' opt',
    iterations n self heap rng opt = Returns (self', heap', rng', opt').
Proof.
  intros Hbox HB HH HN Hnet Hsqrt. revert self heap rng opt Hbox HB HH HN.
  induction n as [|n IH]; intros self heap rng opt Hbox HB HH HN;
    cbn [iterations]; [eauto |].
  destruct (train_iteration_total A self heap rng opt Hbox HB HH HN Hnet Hsqrt)
    as (self1 & heap1 & rng1 & opt1 & Hone).
  rewrite Hone.
  destruct (train_iteration_returns _ _ _ _ _ _ _ _ Hone) as (Hcfg & _).
  unfold same_configuration in Hcfg.
  destruct Hcfg as (_ & _ & Hb & Hr & Hh & Hbs & _).
  apply IH.
  - unfold has_box. rewrite Hb, Hr. exact Hbox.
  - now rewrite Hbs.
  - now rewrite Hh.
  - now rewrite Hbs, Hh.
Qed.


End IterationReturns.

Lemma toy_network_shapes : network_shapes (network := toy_network) 3.
Proof.
  intros theta states _. eexists _, _.
  split; [reflexivity |]. split; [reflexivity |].
  split; [apply length_map |]. split; [| apply length_map].
  apply List.Forall_forall. intros row Hrow. apply in_map_iff in Hrow.
  destruct Hrow as (s & <- & _). destruct (Z.even theta); reflexivity.
Qed.

Lemma toy_sqrt_safe : sqrt_safe (square_root := toy_square_root).
Proof.
  intros q Hq Heq. unfold toy_square_root, torch_sqrt, TOL in Heq.
  assert (0 < (1 + q) / 2) as Hpos by (apply Qlt_shift_div_l; lra).
  lra.
Qed.

Lemma toy_trainee_has_box : has_box toy_trainee.
Proof. intros _. eexists. reflexivity. Qed.



(** ** The base environment *)

Section BaseEnvironment.

Context {X Action : Type}.
Implicit Type self : BaseEnv.t X Action.

Lemma BaseEnv_run_keeps self (calls : list BaseEnv.call) :
  BaseEnv.initial_state (BaseEnv.run calls self) = BaseEnv.initial_state self
  /\ BaseEnv.transition_function (BaseEnv.run calls self) =
       BaseEnv.transition_function self
  /\ BaseEnv.reward_function (BaseEnv.run calls self) =
       BaseEnv.reward_function self
  /\ BaseEnv.is_done (BaseEnv.run calls self) = BaseEnv.is_done self
  /\ BaseEnv.state_space_dimension (BaseEnv.run calls self) =
       BaseEnv.state_space_dimension self
  /\ BaseEnv.action_space_dimension (BaseEnv.run calls self) =
       BaseEnv.action_space_dimension self.
Proof.
  revert self. induction calls as [|c calls IH]; intros self.
  - repeat split.
  - unfold BaseEnv.run in *. cbn [fold_left].
    destruct (IH (BaseEnv.perform c self)) as (-> & -> & -> & -> & -> & ->).
    destruct c; repeat split.
Qed.

(** X29. Whatever calls of [update], [set_state] and [reset] were made
    on an environment, [reset] brings the state back to the initial state
    given at construction, which no method ever assigns; a freshly built
    environment is already there.  The transition function is a function
    of the model: it returns the next state and writes into nothing. *)
Theorem BaseEnv_reset_restores self (calls : list BaseEnv.call) :
  BaseEnv.state (BaseEnv.reset (BaseEnv.run calls self)) =
    BaseEnv.initial_state self
  /\ BaseEnv.initial_state (BaseEnv.reset (BaseEnv.run calls self)) =
       BaseEnv.initial_state self
  /\ (forall initial transition reward done sd ad,
        self = BaseEnv.new initial transition reward done sd ad ->
        BaseEnv.state self = initial
        /\ BaseEnv.state (BaseEnv.reset (BaseEnv.run calls self)) = initial).
Proof.
  destruct (BaseEnv_run_keeps self calls) as (Hinit & _).
  cbn [BaseEnv.reset BaseEnv.with_state BaseEnv.state BaseEnv.initial_state].
  split; [exact Hinit |]. split; [exact Hinit |].
  intros initial transition reward done sd ad ->. split; [reflexivity |].
  rewrite Hinit. reflexivity.
Qed.

Lemma BaseEnv_updates_never_done self (actions : list Action) :
  (forall s, BaseEnv.is_done self s = false) ->
  Forall (fun returned => snd returned = false)
    (snd (BaseEnv.updates actions self)).
Proof.
  revert self. induction actions as [|action actions IH]; intros self Hnever.
  - constructor.
  - cbn [BaseEnv.updates].
    set (next := BaseEnv.with_state
                   (BaseEnv.transition_function self (BaseEnv.state self) action)
                   self).
    change (BaseEnv.update action self) with
      (next, (BaseEnv.reward_function self (BaseEnv.state next) action,
              BaseEnv.is_done self (BaseEnv.state next))).
    cbv iota beta. specialize (IH next Hnever).
    destruct (BaseEnv.updates actions next) as [final rest].
    cbn [snd] in *. constructor; [apply Hnever | exact IH].
Qed.

(** X30. A run of [update] calls walks the state along the transition
    function: after the actions the state is the transition function folded
    over them, one pair is returned per action, and the pair of the k-th
    call holds the reward and the [done] flag of the state that call has
    reached, not of the one it left; an environment built without
    [is_done] never reports done. *)
Theorem BaseEnv_updates_follow_transitions self (actions : list Action) :
  let reached k :=
    fold_left (BaseEnv.transition_function self) (firstn k actions)
      (BaseEnv.state self) in
  BaseEnv.state (fst (BaseEnv.updates actions self)) = reached (length actions)
  /\ length (snd (BaseEnv.updates actions self)) = length actions
  /\ (forall k action,
        nth_error actions k = Some action ->
        nth_error (snd (BaseEnv.updates actions self)) k =
          Some (BaseEnv.reward_function self (reached (S k)) action,
                BaseEnv.is_done self (reached (S k))))
  /\ (forall initial transition reward sd ad,
        self = BaseEnv.new initial transition reward None sd ad ->
        Forall (fun returned => snd returned = false)
          (snd (BaseEnv.updates actions self))).
Proof.
  cbv zeta. split; [| split; [| split]].
  4: { intros initial transition reward sd ad ->.
       apply BaseEnv_updates_never_done. reflexivity. }
  all: revert self; induction actions as [|action actions IH]; intros self.
  all: try (cbn [BaseEnv.updates];
    set (next := BaseEnv.with_state
                   (BaseEnv.transition_function self (BaseEnv.state self) action)
                   self);
    change (BaseEnv.update action self) with
      (next, (BaseEnv.reward_function self (BaseEnv.state next) action,
              BaseEnv.is_done self (BaseEnv.state next)));
    cbv iota beta; specialize (IH next);
    destruct (BaseEnv.updates actions next) as [final rest];
    cbn [fst snd] in * ).
  - reflexivity.
  - exact IH.
  - reflexivity.
  - cbn [length]. rewrite IH. reflexivity.
  - intros [|k] a Hk; discriminate.
  - intros [|k] a Hk.
    + cbn in Hk. injection Hk as <-. reflexivity.
    + cbn [nth_error] in Hk |- *. rewrite (IH k a Hk). reflexivity.
Qed.

End BaseEnvironment.

Lemma BaseEnv_reset_restores_witness :
  BaseEnv.state
    (BaseEnv.reset
       (BaseEnv.run
          [BaseEnv.Update 1; BaseEnv.SetState [5]; BaseEnv.Update 2]
          toy_base_env)) = [0].
Proof.
  apply (proj2 (proj2 (BaseEnv_reset_restores toy_base_env
                         [BaseEnv.Update 1; BaseEnv.SetState [5];
                          BaseEnv.Update 2]))
           [0] (fun s a => map (Qplus a) s) (fun s _ => Qsum s)
           None None None eq_refl).
Defined.

Lemma BaseEnv_updates_follow_transitions_witness :
  Forall (fun returned : Q * bool => snd returned = false)
    (snd (BaseEnv.updates [1; 2] toy_base_env)).
Proof.
  apply (proj2 (proj2 (proj2
           (BaseEnv_updates_follow_transitions toy_base_env [1; 2])))
           [0] (fun s a => map (Qplus a) s) (fun s _ => Qsum s)
           None None eq_refl).
Defined.
